(** * bluesky_adaptive.agents.simple: sequential and scikit-learn agent mixins

    A shallow embedding of [bluesky_adaptive/agents/simple.py].  Methods that
    mutate [self] become functions from an agent record to an outcome paired
    with the updated record.  Python exceptions are the [Raise] branch of
    [result]; the module-level logger is a list of warnings carried by the
    agent record. *)

From Stdlib Require Import List ZArith QArith Bool Arith Lia Permutation Sorted.
Import ListNotations.

Close Scope Q_scope.
Local Open Scope nat_scope.

Set Implicit Arguments.

(** ** Exceptions and fallible computations *)

Inductive exn : Type :=
| StopIteration
| ValueError
| ZeroDivisionError
| NotImplementedError
| AttributeError
| IndexError
| ModelError (code : nat).   (* anything an external estimator may raise *)

Inductive result (A : Type) : Type :=
| Ok (a : A)
| Raise (e : exn).

Arguments Ok {A} a.
Arguments Raise {A} e.

Definition bind {A B} (r : result A) (k : A -> result B) : result B :=
  match r with
  | Ok a => k a
  | Raise e => Raise e
  end.

Notation "x <- r ;; k" := (bind r (fun x => k))
  (at level 61, r at next level, right associativity).

(** ** The fragment of NumPy used by the bounds test

    A point is a number or a one-dimensional array of numbers; numbers are
    integers here (no NaN).  [np.array] leaves such a value as it is. *)

Inductive ndarray (A : Type) : Type :=
| Scalar (v : A)
| Array1 (vs : list A).

Arguments Scalar {A} v.
Arguments Array1 {A} vs.

Definition value : Type := ndarray Z.

Definition np_array (point : value) : value := point.

Fixpoint zip_with {A B C} (f : A -> B -> C) (xs : list A) (ys : list B) : list C :=
  match xs, ys with
  | x :: xs', y :: ys' => f x y :: zip_with f xs' ys'
  | _, _ => []
  end.

(** Element-wise binary operation with broadcasting: a scalar or a
    one-element array stretches to the other operand's shape; two arrays of
    different lengths (neither of length one) cannot be broadcast. *)
Definition broadcast {A B C} (f : A -> B -> C)
  (a : ndarray A) (b : ndarray B) : result (ndarray C) :=
  match a, b with
  | Scalar x, Scalar y => Ok (Scalar (f x y))
  | Scalar x, Array1 ys => Ok (Array1 (map (f x) ys))
  | Array1 xs, Scalar y => Ok (Array1 (map (fun x => f x y) xs))
  | Array1 xs, Array1 ys =>
      if length xs =? length ys then Ok (Array1 (zip_with f xs ys))
      else match xs, ys with
           | [x], _ => Ok (Array1 (map (f x) ys))
           | _, [y] => Ok (Array1 (map (fun x => f x y) xs))
           | _, _ => Raise ValueError
           end
  end.

Definition np_le : value -> value -> result (ndarray bool) := broadcast Z.leb.
Definition np_ge : value -> value -> result (ndarray bool) := broadcast Z.geb.

(** [bool(a)]: a scalar or a one-element array has the truth value of its
    element and an empty array is false; the truth value of an array holding
    two or more elements is ambiguous and raises [ValueError]. *)
Definition truth (a : ndarray bool) : result bool :=
  match a with
  | Scalar b => Ok b
  | Array1 [] => Ok false
  | Array1 [b] => Ok b
  | Array1 (_ :: _ :: _) => Raise ValueError
  end.

(** [a.all()] *)
Definition np_all (a : ndarray bool) : bool :=
  match a with
  | Scalar b => b
  | Array1 bs => forallb (fun b => b) bs
  end.

(** [a or b]: [a] is evaluated and tested for truth; a true [a] is the
    result, otherwise [b] is evaluated and is the result, untested. *)
Definition py_or (a : result (ndarray bool)) (b : result (ndarray bool))
  : result (ndarray bool) :=
  x <- a ;;
  t <- truth x ;;
  if t then Ok x else b.

(** ** SequentialAgentBase *)

Module Sequential.

(** A skipped point together with the bounds it was tested against. *)
Record warning : Type := {
  skipped : value;
  bounds : value * value
}.

(** What one pass through the body of the [for] loop does with a point. *)
Inductive step : Type :=
| Emit (v : value)
| Skip (w : warning)
| Fail (e : exn).

(** Line 77: [arr <= relative_bounds[1] or arr >= relative_bounds[0]]. *)
Definition condition (arr low high : value) : result (ndarray bool) :=
  py_or (np_le arr high) (np_ge arr low).

(** The loop body of [_create_position_generator].  The condition is
    computed before the [try] block is entered, so an exception raised while
    computing it leaves the generator. *)
Definition visit (relative_bounds : option (value * value)) (point : value) : step :=
  match relative_bounds with
  | Some (low, high) =>
      let arr := np_array point in
      match condition arr low high with
      | Raise e => Fail e
      | Ok cond =>
          match truth cond with
          | Ok true => Emit point
          | Ok false => Skip {| skipped := point; bounds := (low, high) |}
          | Raise ValueError =>
              if np_all cond then Emit arr
              else Skip {| skipped := point; bounds := (low, high) |}
          | Raise e => Fail e
          end
      end
  | None => Emit point
  end.

(** A generator object: not yet started, suspended at a [yield] with the
    points still to be visited, or finished. *)
Inductive generator : Type :=
| Created
| Suspended (rest : list value)
| Closed.

(** Resume the loop over [rest] until the next [yield], the end of the
    sequence or an exception; the warnings logged on the way come first. *)
Fixpoint advance (relative_bounds : option (value * value)) (rest : list value)
  : list warning * result value * generator :=
  match rest with
  | [] => ([], Raise StopIteration, Closed)
  | point :: rest' =>
      match visit relative_bounds point with
      | Emit v => ([], Ok v, Suspended rest')
      | Skip w =>
          let '(ws, out, g) := advance relative_bounds rest' in
          (w :: ws, out, g)
      | Fail e => ([], Raise e, Closed)
      end
  end.

Section Agent.

Variables X Y : Type.

Record agent : Type := {
  independent_cache : list X;
  observable_cache : list Y;
  sequence : list value;
  relative_bounds : option (value * value);
  ask_count : nat;
  position_generator : generator;
  log : list warning
}.

(** [__init__] *)
Definition init (sequence : list value) (relative_bounds : option (value * value))
  : agent :=
  {| independent_cache := [];
     observable_cache := [];
     sequence := sequence;
     relative_bounds := relative_bounds;
     ask_count := 0;
     position_generator := Created;
     log := [] |}.

(** The points the generator has not visited yet. *)
Definition remaining (s : agent) : list value :=
  match position_generator s with
  | Created => sequence s
  | Suspended rest => rest
  | Closed => []
  end.

(** [next(self._position_generator)] *)
Definition next (s : agent) : result value * agent :=
  let '(ws, out, g) := advance (relative_bounds s) (remaining s) in
  (out,
   {| independent_cache := independent_cache s;
      observable_cache := observable_cache s;
      sequence := sequence s;
      relative_bounds := relative_bounds s;
      ask_count := ask_count s;
      position_generator := g;
      log := log s ++ ws |}).

Record tell_doc : Type := {
  independent_variable : list X;
  observable : list Y;
  cache_len : list nat
}.

Definition tell (x : X) (y : Y) (s : agent) : tell_doc * agent :=
  let s' :=
    {| independent_cache := independent_cache s ++ [x];
       observable_cache := observable_cache s ++ [y];
       sequence := sequence s;
       relative_bounds := relative_bounds s;
       ask_count := ask_count s;
       position_generator := position_generator s;
       log := log s |} in
  ({| independent_variable := [x];
      observable := [y];
      cache_len := [length (independent_cache s')] |}, s').

Definition bump (s : agent) : agent :=
  {| independent_cache := independent_cache s;
     observable_cache := observable_cache s;
     sequence := sequence s;
     relative_bounds := relative_bounds s;
     ask_count := ask_count s + 1;
     position_generator := position_generator s;
     log := log s |}.

(** The [defaultdict] built by [ask], as it is when [ask] returns: reading
    [doc["proposal"]] in the [return] statement creates the key when the
    loop did not. *)
Record ask_doc : Type := {
  proposal : list value;
  doc_ask_count : list nat
}.

(** The [for _ in range(batch_size)] loop; [acc] is [doc["proposal"]]. *)
Fixpoint ask_loop (batch_size : nat) (acc : list value) (s : agent)
  : result (list value) * agent :=
  match batch_size with
  | O => (Ok acc, s)
  | S n =>
      match next (bump s) with
      | (Ok point, s') => ask_loop n (acc ++ [point]) s'
      | (Raise e, s') => (Raise e, s')
      end
  end.

Definition ask (batch_size : nat) (s : agent)
  : result (ask_doc * list value) * agent :=
  match ask_loop batch_size [] s with
  | (Ok props, s') =>
      (Ok ({| proposal := props; doc_ask_count := [ask_count s'] |}, props), s')
  | (Raise e, s') => (Raise e, s')
  end.

(** [int / int]: true division, exact here. *)
Definition truediv (a b : nat) : result Q :=
  match b with
  | O => Raise ZeroDivisionError
  | S _ => Ok (Qmake (Z.of_nat a) (Pos.of_nat b))
  end.

Record report_doc : Type := {
  percent_completion : list Q
}.

Definition report (s : agent) : result report_doc :=
  q <- truediv (ask_count s) (length (sequence s)) ;;
  Ok {| percent_completion := [q] |}.

End Agent.

End Sequential.

(** ** Python's ordering of cached values

    [sorted(zip(xs, ys))] compares the pairs with the rich-comparison
    protocol of their components: [py_eq a b] is the truth value of
    [a == b] and [py_lt a b] that of [a < b]; either may raise. *)

Class Comparable (A : Type) : Type := {
  py_eq : A -> A -> result bool;
  py_lt : A -> A -> result bool
}.

#[export] Instance Z_Comparable : Comparable Z := {
  py_eq a b := Ok (Z.eqb a b);
  py_lt a b := Ok (Z.ltb a b)
}.

(** Arrays compare element-wise; [==] and [<] then take the truth value of
    the resulting boolean array. *)
#[export] Instance ndarray_Comparable : Comparable value := {
  py_eq a b := c <- broadcast Z.eqb a b ;; truth c;
  py_lt a b := c <- broadcast Z.ltb a b ;; truth c
}.

(** Tuples compare lexicographically: the first position where the two
    differ (tested with [==]) decides, by [<]; two equal pairs are not
    less than one another. *)
Definition tuple_lt {A B} {ca : Comparable A} {cb : Comparable B}
  (p q : A * B) : result bool :=
  e1 <- py_eq (fst p) (fst q) ;;
  if e1 then
    e2 <- py_eq (snd p) (snd q) ;;
    if e2 then Ok false else py_lt (snd p) (snd q)
  else py_lt (fst p) (fst q).

(** The comparison of a sort keyed on the independent value alone. *)
Definition key_lt {A B} {ca : Comparable A} (p q : A * B) : result bool :=
  py_lt (fst p) (fst q).

Section Sorting.

Variable A : Type.
Variable lt : A -> A -> result bool.

(** [a] stood before every element of the sorted list [l]: it goes in
    front of the first element that is not less than it. *)
Fixpoint insert_sorted (a : A) (l : list A) : result (list A) :=
  match l with
  | [] => Ok [a]
  | b :: l' =>
      c <- lt b a ;;
      if c then (r <- insert_sorted a l' ;; Ok (b :: r))
      else Ok (a :: b :: l')
  end.

(** [sorted(l)]: a stable sort that compares with [<] only, here by
    insertion from the right; the first comparison that raises ends it. *)
Fixpoint sorted (l : list A) : result (list A) :=
  match l with
  | [] => Ok []
  | a :: l' => r <- sorted l' ;; insert_sorted a r
  end.

End Sorting.

(** [sorted(zip(xs, ys))] as the source calls it, and the stable sort keyed
    on [x] alone that the specification describes. *)
Definition sorted_pairs {A B} {ca : Comparable A} {cb : Comparable B}
  (xs : list A) (ys : list B) : result (list (A * B)) :=
  sorted tuple_lt (combine xs ys).

Definition stable_sort_by_x {A B} {ca : Comparable A}
  (xs : list A) (ys : list B) : result (list (A * B)) :=
  sorted key_lt (combine xs ys).

(** The order of integer-keyed pairs by key, and by key then value. *)
Definition key_le {B} (p q : Z * B) : Prop := (fst p <= fst q)%Z.


(** [l[-1]] *)
Definition last_item {A} (l : list A) : result A :=
  match rev l with
  | [] => Raise IndexError
  | a :: _ => Ok a
  end.

(** ** SklearnEstimatorAgentBase and its two report-only subclasses *)

Module Estimator.

(** The estimator capabilities the reports call.  A fitting call returns its
    outcome and the estimator as the call left it; an attribute that the
    estimator does not have reads as [None]. *)
Class Decomposer (M Y W C : Type) : Type := {
  fit_transform : M -> list Y -> result W * M;
  components_ : M -> option C
}.

Class Clusterer (M Y P D K : Type) : Type := {
  fit : M -> list Y -> result unit * M;
  predict : M -> list Y -> result P;
  transform : M -> list Y -> result D;
  cluster_centers_ : M -> option K
}.

Section Agent.

(** [X], [Y]: independent and observable values; [M]: the estimator;
    [T]: the entries of [tell_cache], a list owned by the [Agent] base class
    that this module only reads. *)
Variables X Y M T : Type.

Record agent : Type := {
  independent_cache : list X;
  observable_cache : list Y;
  model : M;
  tell_cache : list T
}.

(** [__init__]; [base_tell_cache] is [tell_cache] as [Agent.__init__] left it. *)
Definition init (estimator : M) (base_tell_cache : list T) : agent :=
  {| independent_cache := [];
     observable_cache := [];
     model := estimator;
     tell_cache := base_tell_cache |}.

Record tell_doc : Type := {
  independent_variable : list X;
  observable : list Y;
  cache_len : list nat
}.

Definition tell (x : X) (y : Y) (s : agent) : tell_doc * agent :=
  let s' :=
    {| independent_cache := independent_cache s ++ [x];
       observable_cache := observable_cache s ++ [y];
       model := model s;
       tell_cache := tell_cache s |} in
  ({| independent_variable := [x];
      observable := [y];
      cache_len := [length (independent_cache s')] |}, s').

Definition ask {B : Type} (batch_size : B) (s : agent)
  : result (unit * list X) * agent :=
  (Raise NotImplementedError, s).

Definition with_model (m : M) (s : agent) : agent :=
  {| independent_cache := independent_cache s;
     observable_cache := observable_cache s;
     model := m;
     tell_cache := tell_cache s |}.

(** [np.array([y for _, y in sorted(zip(independent_cache, observable_cache))])] *)
Definition sorted_observables {cx : Comparable X} {cy : Comparable Y}
  (s : agent) : result (list Y) :=
  ps <- sorted_pairs (independent_cache s) (observable_cache s) ;;
  Ok (map snd ps).


Section Decomposition.

Variables W C : Type.
Context {cx : Comparable X} {cy : Comparable Y} {dec : Decomposer M Y W C}.

(** [components]: the attribute's value, or the empty list that replaces it. *)
Inductive components_value : Type :=
| Fitted (c : C)
| EmptyList.

Record decomposition_doc : Type := {
  weights : list W;
  components : list components_value;
  d_cache_len : list nat;
  d_latest_data : list T
}.

(** The rest of [report] once the array [arr] has been built. *)
Definition decomposition_fit (arr : list Y) (s : agent)
  : result decomposition_doc * agent :=
  let (fitted, m) := fit_transform (model s) arr in
  let s' := with_model m s in
  match fitted with
  | Raise e => (Raise e, s')
  | Ok w =>
      let comps :=
        match components_ m with
        | Some c => Fitted c
        | None => EmptyList          (* except AttributeError *)
        end in
      match last_item (tell_cache s') with
      | Raise e => (Raise e, s')
      | Ok latest =>
          (Ok {| weights := [w];
                 components := [comps];
                 d_cache_len := [length (independent_cache s')];
                 d_latest_data := [latest] |}, s')
      end
  end.

Definition decomposition_report (s : agent)
  : result decomposition_doc * agent :=
  match sorted_observables s with
  | Raise e => (Raise e, s)
  | Ok arr => decomposition_fit arr s
  end.

End Decomposition.

Section Clustering.

Variables P D K : Type.
Context {cx : Comparable X} {cy : Comparable Y} {clu : Clusterer M Y P D K}.

Record cluster_doc : Type := {
  clusters : list P;
  distances : list D;
  cluster_centers : list K;
  c_cache_len : list nat;
  c_latest_data : list T
}.

(** The rest of [report] once the array [arr] has been built. *)
Definition cluster_fit (arr : list Y) (s : agent)
  : result cluster_doc * agent :=
  let (fitted, m) := fit (model s) arr in
  let s' := with_model m s in
  match fitted with
  | Raise e => (Raise e, s')
  | Ok _ =>
      (cl <- predict m arr ;;
       ds <- transform m arr ;;
       cc <- match cluster_centers_ m with
             | Some k => Ok k
             | None => Raise AttributeError
             end ;;
       latest <- last_item (tell_cache s') ;;
       Ok {| clusters := [cl];
             distances := [ds];
             cluster_centers := [cc];
             c_cache_len := [length (independent_cache s')];
             c_latest_data := [latest] |}, s')
  end.

Definition cluster_report (s : agent) : result cluster_doc * agent :=
  match sorted_observables s with
  | Raise e => (Raise e, s)
  | Ok arr => cluster_fit arr s
  end.

End Clustering.

End Agent.

End Estimator.

Arguments Sequential.init X Y sequence relative_bounds : clear implicits.
Arguments Estimator.init {X Y M T} estimator base_tell_cache.

(** ** Runs of [tell] calls *)

Definition seq_tells {X Y} (calls : list (X * Y)) (s : Sequential.agent X Y)
  : Sequential.agent X Y :=
  fold_left (fun s c => snd (Sequential.tell (fst c) (snd c) s)) calls s.

Definition est_tells {X Y M T} (calls : list (X * Y)) (s : Estimator.agent X Y M T)
  : Estimator.agent X Y M T :=
  fold_left (fun s c => snd (Estimator.tell (fst c) (snd c) s)) calls s.

(** What [ask] leaves alone: caches, sequence and bounds. *)
Definition same_data {X Y} (s s' : Sequential.agent X Y) : Prop :=
  Sequential.independent_cache s' = Sequential.independent_cache s /\
  Sequential.observable_cache s' = Sequential.observable_cache s /\
  Sequential.sequence s' = Sequential.sequence s /\
  Sequential.relative_bounds s' = Sequential.relative_bounds s.

(** ** The bounds test on numbers *)

(** [p <= high or p >= low] *)
Definition in_bounds (low high p : Z) : bool :=
  (p <=? high)%Z || (p >=? low)%Z.

(** The warning logged for a number that fails the test. *)
Definition out_of_bounds (low high p : Z) : Sequential.warning :=
  {| Sequential.skipped := Scalar p;
     Sequential.bounds := (Scalar low, Scalar high) |}.

(** ** Concrete agents used in the examples *)

Module Examples.

Import Sequential.

Definition points (l : list Z) : list value := map Scalar l.

(** A ten-point sequence without bounds. *)
Definition ten : agent Z Z :=
  init Z Z (points [0; 1; 2; 3; 4; 5; 6; 7; 8; 9]%Z) None.

(** [relative_bounds=(5, 10)] over the sequence [12, 7]. *)
Definition bounded : agent Z Z :=
  init Z Z (points [12; 7]%Z) (Some (Scalar 5%Z, Scalar 10%Z)).

(** One array point [[6, 7]] under [relative_bounds=(5, 10)]. *)
Definition array_point : agent Z Z :=
  init Z Z [Array1 [6; 7]%Z] (Some (Scalar 5%Z, Scalar 10%Z)).

(** An estimator that records every array it is fitted on; the weights are
    the number of rows.  It has no [components_] attribute. *)
Definition recorder : Estimator.Decomposer (list (list Z)) Z nat nat :=
  {| Estimator.fit_transform m arr := (Ok (length arr), arr :: m);
     Estimator.components_ m := None |}.

(** The same estimator with a [components_] attribute. *)
Definition recorder_with_components
  : Estimator.Decomposer (list (list Z)) Z nat nat :=
  {| Estimator.fit_transform m arr := (Ok (length arr), arr :: m);
     Estimator.components_ m := Some (length m) |}.

(** A clustering estimator of the same kind. *)
Definition cluster_recorder
  : Estimator.Clusterer (list (list Z)) Z (list nat) (list nat) nat :=
  {| Estimator.fit m arr := (Ok tt, arr :: m);
     Estimator.predict m arr := Ok (map (fun _ => 0) arr);
     Estimator.transform m arr := Ok (map (fun _ => 0) arr);
     Estimator.cluster_centers_ m := Some 1 |}.


(** Three observations at distinct independent values. *)
Definition distinct : Estimator.agent Z Z (list (list Z)) (Z * Z) :=
  est_tells [(3, 30); (1, 10); (2, 20)]%Z (Estimator.init [] [(0, 0)%Z]).

(** A fresh agent whose base class starts with an empty [tell_cache],
    after [tell(1, 2)]. *)
Definition told_once : Estimator.agent Z Z (list (list Z)) (Z * Z) :=
  est_tells [(1, 2)]%Z (Estimator.init [] []).

(** A fresh agent whose base class starts with one entry in [tell_cache],
    after [tell(1, 2)]. *)
Definition told_over_base : Estimator.agent Z Z (list (list Z)) (Z * Z) :=
  est_tells [(1, 2)]%Z (Estimator.init [] [(0, 0)%Z]).

(** [relative_bounds=(10, 5)], low above high, over the sequence 1..12. *)
Definition inverted : agent Z Z :=
  init Z Z (points [1; 2; 3; 4; 5; 6; 7; 8; 9; 10; 11; 12]%Z)
       (Some (Scalar 10%Z, Scalar 5%Z)).

(** An estimator over array observables that records what it is fitted on. *)
Definition array_recorder : Estimator.Decomposer (list (list value)) value nat nat :=
  {| Estimator.fit_transform m arr := (Ok (length arr), arr :: m);
     Estimator.components_ m := None |}.

Definition array_cluster_recorder
  : Estimator.Clusterer (list (list value)) value (list nat) (list nat) nat :=
  {| Estimator.fit m arr := (Ok tt, arr :: m);
     Estimator.predict m arr := Ok (map (fun _ => 0) arr);
     Estimator.transform m arr := Ok (map (fun _ => 0) arr);
     Estimator.cluster_centers_ m := Some 1 |}.

(** Two array observations told at the same independent value. *)
Definition tied_arrays : Estimator.agent Z value (list (list value)) (Z * Z) :=
  est_tells [(1, Array1 [1; 2]); (1, Array1 [3; 4])]%Z
            (Estimator.init [] [(0, 0)%Z]).

(** A clustering estimator without [cluster_centers_]. *)
Definition centerless
  : Estimator.Clusterer (list (list Z)) Z (list nat) (list nat) nat :=
  {| Estimator.fit m arr := (Ok tt, arr :: m);
     Estimator.predict m arr := Ok (map (fun _ => 0) arr);
     Estimator.transform m arr := Ok (map (fun _ => 0) arr);
     Estimator.cluster_centers_ m := None |}.

End Examples.

(** * Properties *)

(** ** The position generator *)

Section SequentialFacts.

Import Sequential.

Variables X Y : Type.

Implicit Types s : agent X Y.

Lemma remaining_bump s : remaining (bump s) = remaining s.
Proof. reflexivity. Qed.

Lemma next_bump s : fst (next (bump s)) = fst (next s).
Proof.
  unfold next. rewrite remaining_bump. cbn [relative_bounds bump].
  destruct (advance (relative_bounds s) (remaining s)) as [[ws out] g].
  reflexivity.
Qed.

Lemma next_ask_count s : ask_count (snd (next s)) = ask_count s.
Proof.
  unfold next. destruct (advance (relative_bounds s) (remaining s)) as [[ws out] g].
  reflexivity.
Qed.

Lemma next_relative_bounds s : relative_bounds (snd (next s)) = relative_bounds s.
Proof.
  unfold next. destruct (advance (relative_bounds s) (remaining s)) as [[ws out] g].
  reflexivity.
Qed.

Lemma advance_unbounded (p : value) (rest : list value) :
  advance None (p :: rest) = ([], Ok p, Suspended rest).
Proof. reflexivity. Qed.

Lemma next_unbounded s (p : value) (rest : list value) :
  relative_bounds s = None ->
  remaining s = p :: rest ->
  fst (next s) = Ok p /\ remaining (snd (next s)) = rest.
Proof.
  intros Hb Hr. unfold next. rewrite Hb, Hr, advance_unbounded. split; reflexivity.
Qed.

(** An exception leaves the generator finished. *)
Lemma advance_raise_closed bs (rest : list value) ws e g :
  advance bs rest = (ws, Raise e, g) -> g = Closed.
Proof.
  revert ws. induction rest as [|p rest IH]; intros ws; simpl.
  - intros [= _ _ <-]. reflexivity.
  - destruct (visit bs p) as [v|w|e'].
    + discriminate.
    + destruct (advance bs rest) as [[ws' out] g'] eqn:E.
      intros [= _ -> ->]. eapply IH. reflexivity.
    + intros [= _ _ <-]. reflexivity.
Qed.

Lemma next_raise_closed s e :
  fst (next s) = Raise e -> position_generator (snd (next s)) = Closed.
Proof.
  unfold next.
  destruct (advance (relative_bounds s) (remaining s)) as [[ws out] g] eqn:E.
  simpl. intros ->. eapply advance_raise_closed. exact E.
Qed.

Lemma next_closed s :
  position_generator s = Closed ->
  fst (next s) = Raise StopIteration /\ position_generator (snd (next s)) = Closed.
Proof.
  intros Hc. unfold next, remaining. rewrite Hc. simpl. split; reflexivity.
Qed.

(** ** The batch loop of [ask] *)

Lemma ask_loop_unbounded (k : nat) : forall (acc : list value) s,
  relative_bounds s = None ->
  k <= length (remaining s) ->
  exists s',
    ask_loop k acc s = (Ok (acc ++ firstn k (remaining s)), s') /\
    ask_count s' = ask_count s + k /\
    remaining s' = skipn k (remaining s) /\
    relative_bounds s' = None.
Proof.
  induction k as [|k IH]; intros acc s Hb Hk.
  - exists s. simpl. rewrite app_nil_r, Nat.add_0_r. repeat split; assumption.
  - destruct (remaining s) as [|p rest] eqn:Hr; [simpl in Hk; lia|].
    assert (Hb' : relative_bounds (bump s) = None) by exact Hb.
    assert (Hr' : remaining (bump s) = p :: rest) by exact Hr.
    destruct (next_unbounded (bump s) Hb' Hr') as [Hout Hrest].
    pose proof (next_ask_count (bump s)) as Hc.
    pose proof (next_relative_bounds (bump s)) as Hnb.
    simpl ask_loop.
    destruct (next (bump s)) as [out s1]. simpl in Hout, Hrest, Hc, Hnb. subst out.
    destruct (IH (acc ++ [p]) s1) as (s' & Hl & Hcount & Hrem & Hbs).
    + rewrite Hnb. exact Hb.
    + rewrite Hrest. simpl in Hk. lia.
    + exists s'. rewrite Hl, Hrest, <- app_assoc. simpl.
      repeat split; try assumption.
      * rewrite Hcount, Hc. lia.
      * rewrite Hrem, Hrest. reflexivity.
Qed.

Lemma ask_loop_add (j m : nat) : forall (acc : list value) s,
  ask_loop (j + m) acc s =
    match ask_loop j acc s with
    | (Ok acc', s1) => ask_loop m acc' s1
    | (Raise e, s1) => (Raise e, s1)
    end.
Proof.
  induction j as [|j IH]; intros acc s; simpl.
  - reflexivity.
  - destruct (next (bump s)) as [[p|e] s1].
    + apply IH.
    + reflexivity.
Qed.

Lemma ask_loop_count (j : nat) : forall (acc acc' : list value) s s1,
  ask_loop j acc s = (Ok acc', s1) -> ask_count s1 = ask_count s + j.
Proof.
  induction j as [|j IH]; intros acc acc' s s1; simpl.
  - intros [= _ <-]. lia.
  - pose proof (next_ask_count (bump s)) as Hc.
    destruct (next (bump s)) as [[p|e] s2]; [|discriminate].
    intros Hl. apply IH in Hl. simpl in Hc. rewrite Hl, Hc. lia.
Qed.

Lemma ask_loop_closed (m : nat) (acc : list value) s :
  position_generator s = Closed ->
  0 < m ->
  fst (ask_loop m acc s) = Raise StopIteration.
Proof.
  intros Hc Hm. destruct m as [|m]; [lia|]. simpl.
  assert (Hc' : position_generator (bump s) = Closed) by exact Hc.
  destruct (next_closed _ Hc') as [Hout _].
  destruct (next (bump s)) as [out s1]. simpl in Hout. subst out. reflexivity.
Qed.

End SequentialFacts.

Section SequentialClaims.

Import Sequential.


(** C2.  With bounds configured, a point that is an array of two or more
    elements makes the generator raise [ValueError]: the truth value of the
    element-wise comparison is taken by [or] before the [try] block.  The
    point is neither yielded nor skipped, the generator is finished, and the
    [ask] that drew it has already counted the draw. *)
Theorem array_point_raises_value_error (low high : value) (a b : Z) (tl : list Z)
  (rest : list value) :
  visit (Some (low, high)) (Array1 (a :: b :: tl)) = Fail ValueError /\
  advance (Some (low, high)) (Array1 (a :: b :: tl) :: rest) =
    ([], Raise ValueError, Closed) /\
  fst (ask 1 Examples.array_point) = Raise ValueError /\
  ask_count (snd (ask 1 Examples.array_point)) = 1 /\
  position_generator (snd (ask 1 Examples.array_point)) = Closed /\
  log (snd (ask 1 Examples.array_point)) = [].
Proof.
  assert (Hv : visit (Some (low, high)) (Array1 (a :: b :: tl)) = Fail ValueError).
  { unfold visit, condition, py_or, np_le, np_array, broadcast.
    destruct high as [h|hs].
    - reflexivity.
    - destruct hs as [|h1 [|h2 hs]]; simpl.
      + reflexivity.
      + reflexivity.
      + destruct (length tl =? length hs); reflexivity. }
  split; [exact Hv|]. split; [cbn [advance]; rewrite Hv; reflexivity|].
  repeat split.
Qed.

Variables X Y : Type.

(** C4.  Without bounds and with at least [k] points left, [ask k] returns
    the next [k] points in sequence order, the same list under
    [doc["proposal"]], the new counter as the single element of
    [doc["ask_count"]], and the counter has grown by [k]. *)
Theorem ask_returns_next_k_points (s : agent X Y) (k : nat) :
  relative_bounds s = None ->
  k <= length (remaining s) ->
  exists s',
    ask k s =
      (Ok ({| proposal := firstn k (remaining s);
              doc_ask_count := [ask_count s + k] |},
           firstn k (remaining s)), s') /\
    ask_count s' = ask_count s + k /\
    remaining s' = skipn k (remaining s).
Proof.
  intros Hb Hk.
  destruct (ask_loop_unbounded [] s Hb Hk) as (s' & Hl & Hc & Hr & _).
  exists s'. unfold ask. rewrite Hl, Hc. simpl. repeat split; assumption.
Qed.

(** C5.  [report] divides [ask_count] by the length of the sequence: a
    one-element list with that quotient when the sequence is not empty
    (3 of 10 gives 3/10), [ZeroDivisionError] when it is empty. *)
Theorem report_percent_completion (s : agent X Y) :
  (sequence s <> [] ->
     report s =
       Ok {| percent_completion :=
               [Qmake (Z.of_nat (ask_count s)) (Pos.of_nat (length (sequence s)))] |}) /\
  (sequence s = [] -> report s = Raise ZeroDivisionError) /\
  report (snd (ask 3 Examples.ten)) =
    Ok {| percent_completion := [Qmake 3 10] |}.
Proof.
  unfold report, truediv. repeat split.
  - intros Hne. destruct (sequence s); [contradiction|reflexivity].
  - intros ->. reflexivity.
Qed.

(** C10.  When the first [j] draws of [ask k] succeed and the next one finds
    the generator exhausted ([j < k]), [ask k] raises [StopIteration]; the
    counter stays [j + 1] above its value before the call, the generator is
    finished, and no later [ask] returns any point: the [j] drawn points are
    lost with the failed call. *)
Theorem ask_not_atomic_on_exhaustion (s s1 : agent X Y) (j k : nat)
  (doc : ask_doc) (props : list value) :
  ask j s = (Ok (doc, props), s1) ->
  fst (next s1) = Raise StopIteration ->
  j < k ->
  exists s',
    ask k s = (Raise StopIteration, s') /\
    ask_count s' = ask_count s + j + 1 /\
    position_generator s' = Closed /\
    remaining s' = [] /\
    (forall m, 0 < m -> fst (ask m s') = Raise StopIteration) /\
    fst (ask 0 s') = Ok ({| proposal := []; doc_ask_count := [ask_count s'] |}, []).
Proof.
  intros Hj Hstop Hlt.
  unfold ask in Hj.
  destruct (ask_loop j [] s) as [[acc|e] s2] eqn:Hl; [|discriminate].
  injection Hj as _ _ ->.
  pose proof (ask_loop_count _ _ _ Hl) as Hc.
  assert (Hstop' : fst (next (bump s1)) = Raise StopIteration)
    by (rewrite next_bump; exact Hstop).
  pose proof (next_raise_closed _ Hstop') as Hclosed.
  pose proof (next_ask_count (bump s1)) as Hc'.
  exists (snd (next (bump s1))).
  assert (Hk : k = j + S (k - j - 1)) by lia.
  split; [|split; [|split; [|split; [|split]]]].
  - unfold ask. rewrite Hk, ask_loop_add, Hl. simpl.
    destruct (next (bump s1)) as [out s3]. simpl in Hstop'. subst out. reflexivity.
  - rewrite Hc'. simpl. lia.
  - exact Hclosed.
  - unfold remaining. rewrite Hclosed. reflexivity.
  - intros m Hm. unfold ask.
    pose proof (ask_loop_closed [] _ Hclosed Hm) as Hm'.
    destruct (ask_loop m [] (snd (next (bump s1)))) as [[r|e] s3];
      simpl in Hm'; [discriminate|]. simpl. injection Hm' as ->. reflexivity.
  - reflexivity.
Qed.

End SequentialClaims.

(** ** Caches *)

Lemma seq_tells_caches X Y (calls : list (X * Y)) : forall s : Sequential.agent X Y,
  Sequential.independent_cache (seq_tells calls s) =
    Sequential.independent_cache s ++ map fst calls /\
  Sequential.observable_cache (seq_tells calls s) =
    Sequential.observable_cache s ++ map snd calls.
Proof.
  induction calls as [|[x y] calls IH]; intros s.
  - simpl. rewrite !app_nil_r. split; reflexivity.
  - change (seq_tells ((x, y) :: calls) s)
      with (seq_tells calls (snd (Sequential.tell x y s))).
    destruct (IH (snd (Sequential.tell x y s))) as [Hi Ho].
    rewrite Hi, Ho. simpl. rewrite <- !app_assoc. split; reflexivity.
Qed.

Lemma est_tells_caches X Y M T (calls : list (X * Y)) :
  forall s : Estimator.agent X Y M T,
  Estimator.independent_cache (est_tells calls s) =
    Estimator.independent_cache s ++ map fst calls /\
  Estimator.observable_cache (est_tells calls s) =
    Estimator.observable_cache s ++ map snd calls /\
  Estimator.tell_cache (est_tells calls s) = Estimator.tell_cache s /\
  Estimator.model (est_tells calls s) = Estimator.model s.
Proof.
  induction calls as [|[x y] calls IH]; intros s.
  - simpl. rewrite !app_nil_r. repeat split; reflexivity.
  - change (est_tells ((x, y) :: calls) s)
      with (est_tells calls (snd (Estimator.tell x y s))).
    destruct (IH (snd (Estimator.tell x y s))) as (Hi & Ho & Ht & Hm).
    rewrite Hi, Ho, Ht, Hm. simpl. rewrite <- !app_assoc. repeat split; reflexivity.
Qed.

(** C3.  Starting from a fresh agent of either kind, after any run of
    [tell] calls the two caches hold the told [x] and [y] values in call
    order, so they have one length and agree index by index with the calls;
    a single [tell] appends one element to each cache and removes none. *)
Theorem caches_grow_in_lockstep (X Y M T : Type) (calls : list (X * Y))
  (sequence : list value) (relative_bounds : option (value * value))
  (estimator : M) (base_tell_cache : list T) :
  let s := seq_tells calls (Sequential.init X Y sequence relative_bounds) in
  let e := est_tells calls (Estimator.init estimator base_tell_cache) in
  (Sequential.independent_cache s = map fst calls /\
   Sequential.observable_cache s = map snd calls /\
   length (Sequential.independent_cache s) = length (Sequential.observable_cache s)) /\
  (Estimator.independent_cache e = map fst calls /\
   Estimator.observable_cache e = map snd calls /\
   length (Estimator.independent_cache e) = length (Estimator.observable_cache e)) /\
  (forall i x y, nth_error calls i = Some (x, y) ->
     nth_error (Sequential.independent_cache s) i = Some x /\
     nth_error (Sequential.observable_cache s) i = Some y /\
     nth_error (Estimator.independent_cache e) i = Some x /\
     nth_error (Estimator.observable_cache e) i = Some y) /\
  (forall (a : Sequential.agent X Y) x y,
     Sequential.independent_cache (snd (Sequential.tell x y a)) =
       Sequential.independent_cache a ++ [x] /\
     Sequential.observable_cache (snd (Sequential.tell x y a)) =
       Sequential.observable_cache a ++ [y]) /\
  (forall (a : Estimator.agent X Y M T) x y,
     Estimator.independent_cache (snd (Estimator.tell x y a)) =
       Estimator.independent_cache a ++ [x] /\
     Estimator.observable_cache (snd (Estimator.tell x y a)) =
       Estimator.observable_cache a ++ [y]).
Proof.
  intros s e.
  destruct (seq_tells_caches calls (Sequential.init X Y sequence relative_bounds))
    as [Hsi Hso].
  destruct (est_tells_caches calls (Estimator.init estimator base_tell_cache))
    as (Hei & Heo & _ & _).
  simpl in Hsi, Hso, Hei, Heo. fold s in Hsi, Hso. fold e in Hei, Heo.
  rewrite Hsi, Hso, Hei, Heo.
  split; [|split; [|split; [|split]]].
  - rewrite !length_map. repeat split.
  - rewrite !length_map. repeat split.
  - intros i x y Hi.
    pose proof (map_nth_error fst _ _ Hi) as Hx.
    pose proof (map_nth_error snd _ _ Hi) as Hy.
    simpl in Hx, Hy. repeat split; assumption.
  - intros a x y. split; reflexivity.
  - intros a x y. split; reflexivity.
Qed.

(** C6.  [ask] on the passive estimator base raises [NotImplementedError]
    for every argument and returns the agent as it was: caches, model and
    [tell_cache] are untouched. *)
Theorem passive_ask_not_implemented (X Y M T B : Type) (batch_size : B)
  (s : Estimator.agent X Y M T) :
  Estimator.ask batch_size s = (Raise NotImplementedError, s).
Proof. reflexivity. Qed.

(** ** Sorting *)

Section InsertionFacts.

Variable A : Type.
Variable lt : A -> A -> result bool.

Lemma insert_sorted_perm (a : A) : forall l r,
  insert_sorted lt a l = Ok r -> Permutation r (a :: l).
Proof.
  induction l as [|b l IH]; intros r; simpl.
  - intros [= <-]. apply Permutation_refl.
  - destruct (lt b a) as [[|]|e]; simpl; try discriminate.
    + destruct (insert_sorted lt a l) as [r'|e]; simpl; [|discriminate].
      intros [= <-]. specialize (IH r' eq_refl).
      eapply perm_trans; [apply perm_skip; exact IH|apply perm_swap].
    + intros [= <-]. apply Permutation_refl.
Qed.

Lemma sorted_perm : forall l r, sorted lt l = Ok r -> Permutation r l.
Proof.
  induction l as [|a l IH]; intros r; simpl.
  - intros [= <-]. apply perm_nil.
  - destruct (sorted lt l) as [r'|e]; simpl; [|discriminate].
    intros Hi. apply insert_sorted_perm in Hi.
    eapply perm_trans; [exact Hi|]. apply perm_skip, IH. reflexivity.
Qed.

(** When [<] never raises and decides a total preorder [le]. *)
Variable ltb : A -> A -> bool.
Variable le : A -> A -> Prop.
Hypothesis lt_total : forall a b, lt a b = Ok (ltb a b).
Hypothesis ltb_le : forall a b, ltb a b = true -> le a b.
Hypothesis nltb_le : forall a b, ltb a b = false -> le b a.
Hypothesis le_trans : forall a b c, le a b -> le b c -> le a c.

Lemma insert_sorted_ok (a : A) : forall l, exists r, insert_sorted lt a l = Ok r.
Proof.
  induction l as [|b l [r IH]]; simpl.
  - eexists. reflexivity.
  - rewrite lt_total. simpl. destruct (ltb b a).
    + rewrite IH. simpl. eexists. reflexivity.
    + eexists. reflexivity.
Qed.

Lemma insert_sorted_ordered (a : A) : forall l r,
  StronglySorted le l ->
  insert_sorted lt a l = Ok r ->
  StronglySorted le r.
Proof.
  induction l as [|b l IH]; intros r Hs; simpl.
  - intros [= <-]. repeat constructor.
  - rewrite lt_total. simpl. inversion Hs as [|? ? Hs' Hall]; subst.
    destruct (ltb b a) eqn:Hba.
    + destruct (insert_sorted lt a l) as [r'|e] eqn:Hi; simpl; [|discriminate].
      intros [= <-]. constructor.
      * apply IH; [exact Hs'|reflexivity].
      * apply insert_sorted_perm in Hi.
        eapply Permutation_Forall; [apply Permutation_sym; exact Hi|].
        constructor; [apply ltb_le; exact Hba|exact Hall].
    + intros [= <-]. constructor; [exact Hs|].
      constructor; [apply nltb_le; exact Hba|].
      eapply Forall_impl; [|exact Hall].
      intros c Hc. eapply le_trans; [apply nltb_le; exact Hba|exact Hc].
Qed.

Lemma sorted_ordered : forall l,
  exists r, sorted lt l = Ok r /\ Permutation r l /\ StronglySorted le r.
Proof.
  induction l as [|a l (r' & Hr' & Hp & Hs)]; simpl.
  - exists []. repeat split; constructor.
  - rewrite Hr'. simpl.
    destruct (insert_sorted_ok a r') as [r Hr]. exists r.
    split; [exact Hr|]. split.
    + eapply perm_trans; [eapply insert_sorted_perm; exact Hr|].
      apply perm_skip. exact Hp.
    + eapply insert_sorted_ordered; [exact Hs|exact Hr].
Qed.

End InsertionFacts.

Section KeySort.

Variable B : Type.

Lemma stable_sort_by_x_ordered (xs : list Z) (ys : list B) :
  exists ps, stable_sort_by_x xs ys = Ok ps /\
             Permutation ps (combine xs ys) /\
             StronglySorted key_le ps.
Proof.
  unfold stable_sort_by_x.
  apply sorted_ordered with (ltb := fun p q : Z * B => (fst p <? fst q)%Z).
  - intros a b. reflexivity.
  - intros a b H. apply Z.ltb_lt in H. unfold key_le. lia.
  - intros a b H. apply Z.ltb_ge in H. exact H.
  - intros a b c. unfold key_le. lia.
Qed.

(** Insertion by key keeps the relative order of the pairs that share a key. *)
Lemma insert_by_key_stable (k : Z) (a : Z * B) : forall l r,
  insert_sorted key_lt a l = Ok r ->
  filter (fun p => (fst p =? k)%Z) r = filter (fun p => (fst p =? k)%Z) (a :: l).
Proof.
  induction l as [|b l IH]; intros r.
  - simpl. intros [= <-]. reflexivity.
  - cbn [insert_sorted].
    change (key_lt b a) with (@Ok bool (fst b <? fst a)%Z). cbn [bind].
    destruct (fst b <? fst a)%Z eqn:Hba.
    + destruct (insert_sorted key_lt a l) as [r'|e]; cbn [bind]; [|discriminate].
      intros [= <-]. cbn [filter]. rewrite (IH r' eq_refl). cbn [filter].
      apply Z.ltb_lt in Hba.
      destruct (fst b =? k)%Z eqn:Hb, (fst a =? k)%Z eqn:Ha; try reflexivity.
      apply Z.eqb_eq in Hb, Ha. lia.
    + intros [= <-]. reflexivity.
Qed.

Lemma stable_sort_by_x_stable (k : Z) (xs : list Z) (ys : list B) (ps : list (Z * B)) :
  stable_sort_by_x xs ys = Ok ps ->
  filter (fun p => (fst p =? k)%Z) ps =
    filter (fun p => (fst p =? k)%Z) (combine xs ys).
Proof.
  unfold stable_sort_by_x. revert ps.
  induction (combine xs ys) as [|a l IH]; intros ps; simpl.
  - intros [= <-]. reflexivity.
  - destruct (sorted key_lt l) as [r|e]; simpl; [|discriminate].
    intros Hi. rewrite (insert_by_key_stable k _ _ Hi). simpl.
    rewrite (IH r eq_refl). reflexivity.
Qed.

Context {cb : Comparable B}.

(** On distinct keys the tuple comparison never looks at the values. *)
Lemma tuple_lt_distinct_keys (p q : Z * B) :
  fst p <> fst q -> tuple_lt p q = key_lt p q.
Proof.
  intros Hne. unfold tuple_lt, key_lt. simpl.
  destruct (Z.eqb_spec (fst p) (fst q)); [contradiction|reflexivity].
Qed.

Lemma insert_tuple_as_key (a : Z * B) : forall l,
  ~ In (fst a) (map fst l) ->
  insert_sorted tuple_lt a l = insert_sorted key_lt a l.
Proof.
  induction l as [|b l IH]; intros Hn; simpl.
  - reflexivity.
  - simpl in Hn. rewrite tuple_lt_distinct_keys by tauto.
    rewrite IH by tauto. reflexivity.
Qed.

Lemma sorted_tuple_as_key : forall l : list (Z * B),
  NoDup (map fst l) -> sorted tuple_lt l = sorted key_lt l.
Proof.
  induction l as [|a l IH]; intros Hnd; simpl.
  - reflexivity.
  - inversion Hnd as [|? ? Hn Hnd']; subst. rewrite IH by exact Hnd'.
    destruct (sorted key_lt l) as [r|e] eqn:Hr; simpl; [|reflexivity].
    apply insert_tuple_as_key. intros Hin. apply Hn.
    apply sorted_perm in Hr.
    eapply Permutation_in; [apply Permutation_map; exact Hr|exact Hin].
Qed.

Lemma NoDup_combine_keys (xs : list Z) : forall ys : list B,
  NoDup xs -> NoDup (map fst (combine xs ys)).
Proof.
  induction xs as [|x xs IH]; intros ys Hnd; simpl.
  - constructor.
  - destruct ys as [|y ys]; simpl; [constructor|].
    inversion Hnd as [|? ? Hn Hnd']; subst. constructor.
    + intros Hin. apply Hn. apply in_map_iff in Hin.
      destruct Hin as [[x' y'] [Heq Hin]]. simpl in Heq. subst x'.
      eapply in_combine_l. exact Hin.
    + apply IH. exact Hnd'.
Qed.

Lemma sorted_pairs_distinct_x (xs : list Z) (ys : list B) :
  NoDup xs -> sorted_pairs xs ys = stable_sort_by_x xs ys.
Proof.
  intros Hnd. unfold sorted_pairs, stable_sort_by_x.
  apply sorted_tuple_as_key, NoDup_combine_keys, Hnd.
Qed.

End KeySort.


(** ** The reports of the estimator agents *)

Lemma last_item_snoc A (l : list A) (a : A) : last_item (l ++ [a]) = Ok a.
Proof. unfold last_item. rewrite rev_unit. reflexivity. Qed.

Section EstimatorClaims.

Import Estimator.


(** C8 (amended).  Once the sort and [fit_transform] have succeeded, a
    missing [components_] is never a failure of [report]: the empty list
    takes its place.  With a [tell_cache] that is not empty, [report] returns
    the full dictionary, holding the attribute's value when it is there and
    the empty list when it is not.  With an empty [tell_cache], [report]
    raises [IndexError] on [latest_data], attribute or no attribute.  An
    [AttributeError] that leaves [report] comes from the sort or from
    [fit_transform], never from that read. *)
Theorem missing_components_replaced_by_empty :
  forall (X Y M T W C : Type) (cx : Comparable X) (cy : Comparable Y)
         (dec : Decomposer M Y W C) (s : agent X Y M T),
  (forall (arr : list Y) (w : W) (m : M) (tc : list T) (t : T),
     sorted_observables s = Ok arr ->
     fit_transform (model s) arr = (Ok w, m) ->
     tell_cache s = tc ++ [t] ->
     (components_ m = None ->
        decomposition_report s =
          (Ok {| weights := [w];
                 components := [EmptyList C];
                 d_cache_len := [length (independent_cache s)];
                 d_latest_data := [t] |}, with_model m s)) /\
     (forall c : C, components_ m = Some c ->
        decomposition_report s =
          (Ok {| weights := [w];
                 components := [Fitted c];
                 d_cache_len := [length (independent_cache s)];
                 d_latest_data := [t] |}, with_model m s))) /\
  (fst (decomposition_report s) = Raise AttributeError ->
     sorted_observables s = Raise AttributeError \/
     exists arr, sorted_observables s = Ok arr /\
                 fst (fit_transform (model s) arr) = Raise AttributeError) /\
  (forall (arr : list Y) (w : W) (m : M),
     sorted_observables s = Ok arr ->
     fit_transform (model s) arr = (Ok w, m) ->
     tell_cache s = [] ->
     decomposition_report s = (Raise IndexError, with_model m s)).
Proof.
  intros X Y M T W C cx cy dec s. split; [|split].
  - intros arr w m tc t Hsort Hfit Htc.
    unfold decomposition_report, decomposition_fit.
    rewrite Hsort, Hfit. cbn [with_model tell_cache independent_cache].
    rewrite Htc, last_item_snoc.
    split; [intros -> | intros c ->]; reflexivity.
  - unfold decomposition_report, decomposition_fit.
    destruct (sorted_observables s) as [arr|e] eqn:Hsort.
    + intros Hr. right. exists arr. split; [reflexivity|].
      destruct (fit_transform (model s) arr) as [[w|e] m]; simpl in *.
      * destruct (last_item (tell_cache s)) as [t|e] eqn:Hl; simpl in Hr.
        -- discriminate.
        -- unfold last_item in Hl. destruct (rev (tell_cache s)); [|discriminate].
           injection Hl as <-. discriminate.
      * injection Hr as ->. reflexivity.
    + simpl. intros Hr. left. injection Hr as ->. reflexivity.
  - intros arr w m Hsort Hfit Htc.
    unfold decomposition_report, decomposition_fit.
    rewrite Hsort, Hfit. cbn [with_model tell_cache independent_cache].
    rewrite Htc. reflexivity.
Qed.

(** C9 (amended).  [latest_data] holds the last entry of [tell_cache], the
    list kept by the [Agent] base class.  [tell] does not write that list, so
    the entry does not depend on the pair just told; with an empty
    [tell_cache] both reports end in [IndexError]. *)
Theorem latest_data_is_last_tell_cache_entry :
  (forall (X Y M T : Type) (s : agent X Y M T) (x : X) (y : Y),
     tell_cache (snd (tell x y s)) = tell_cache s) /\
  (forall (X Y M T W C : Type) (cx : Comparable X) (cy : Comparable Y)
          (dec : Decomposer M Y W C) (s : agent X Y M T)
          (arr : list Y) (w : W) (m : M),
     sorted_observables s = Ok arr ->
     fit_transform (model s) arr = (Ok w, m) ->
     (forall tc t, tell_cache s = tc ++ [t] ->
        exists doc, decomposition_report s = (Ok doc, with_model m s) /\
                    d_latest_data doc = [t]) /\
     (tell_cache s = [] ->
        decomposition_report s = (Raise IndexError, with_model m s))) /\
  (forall (X Y M T P D K : Type) (cx : Comparable X) (cy : Comparable Y)
          (clu : Clusterer M Y P D K) (s : agent X Y M T)
          (arr : list Y) (m : M) (cl : P) (ds : D) (k : K),
     sorted_observables s = Ok arr ->
     fit (model s) arr = (Ok tt, m) ->
     predict m arr = Ok cl ->
     transform m arr = Ok ds ->
     cluster_centers_ m = Some k ->
     (forall tc t, tell_cache s = tc ++ [t] ->
        exists doc, cluster_report s = (Ok doc, with_model m s) /\
                    c_latest_data doc = [t]) /\
     (tell_cache s = [] ->
        cluster_report s = (Raise IndexError, with_model m s))).
Proof.
  split; [reflexivity|]. split.
  - intros X Y M T W C cx cy dec s arr w m Hsort Hfit.
    unfold decomposition_report, decomposition_fit. rewrite Hsort, Hfit.
    cbn [with_model tell_cache independent_cache]. split.
    + intros tc t ->. rewrite last_item_snoc. eexists. split; reflexivity.
    + intros ->. reflexivity.
  - intros X Y M T P D K cx cy clu s arr m cl ds k Hsort Hfit Hp Ht Hk.
    unfold cluster_report, cluster_fit. rewrite Hsort, Hfit, Hp, Ht, Hk.
    cbn [with_model tell_cache independent_cache bind]. split.
    + intros tc t ->. rewrite last_item_snoc. eexists. split; reflexivity.
    + intros ->. reflexivity.
Qed.

End EstimatorClaims.

(** ** Instances on the example agents *)

Section Instances.

Import Examples.

(** C4 on the ten-point agent: [ask 3] returns the points 0, 1, 2. *)
Lemma ask_returns_next_k_points_witness :
  exists s',
    Sequential.ask 3 ten =
      (Ok ({| Sequential.proposal := points [0; 1; 2]%Z;
              Sequential.doc_ask_count := [3] |}, points [0; 1; 2]%Z), s') /\
    Sequential.ask_count s' = 3 /\
    Sequential.remaining s' = points [3; 4; 5; 6; 7; 8; 9]%Z.
Proof.
  exact (ask_returns_next_k_points ten (k := 3) eq_refl
           (proj1 (Nat.leb_le 3 10) eq_refl)).
Defined.

(** C5 after three of ten points. *)
Lemma report_percent_completion_witness :
  Sequential.report (snd (Sequential.ask 3 ten)) =
    Ok {| Sequential.percent_completion := [Qmake 3 10] |}.
Proof.
  apply (proj1 (report_percent_completion (snd (Sequential.ask 3 ten)))).
  simpl. discriminate.
Defined.

(** C10 on the two-point agent: [ask 3] fails on its third draw. *)
Lemma ask_not_atomic_on_exhaustion_witness :
  exists s',
    Sequential.ask 3 bounded = (Raise StopIteration, s') /\
    Sequential.ask_count s' = 3 /\
    Sequential.position_generator s' = Sequential.Closed /\
    Sequential.remaining s' = [] /\
    (forall m, 0 < m -> fst (Sequential.ask m s') = Raise StopIteration) /\
    fst (Sequential.ask 0 s') =
      Ok ({| Sequential.proposal := [];
             Sequential.doc_ask_count := [Sequential.ask_count s'] |}, []).
Proof.
  exact (ask_not_atomic_on_exhaustion bounded
           (s1 := snd (Sequential.ask 2 bounded)) (j := 2) (k := 3)
           eq_refl eq_refl (proj1 (Nat.ltb_lt 2 3) eq_refl)).
Defined.




(** C8 on the recording estimators, without and with [components_]. *)
Lemma missing_components_replaced_by_empty_witness :
  Estimator.decomposition_report (dec := recorder) distinct =
    (Ok {| Estimator.weights := [3];
           Estimator.components := [Estimator.EmptyList nat];
           Estimator.d_cache_len := [3];
           Estimator.d_latest_data := [(0, 0)%Z] |},
     Estimator.with_model [[10; 20; 30]%Z] distinct) /\
  Estimator.decomposition_report (dec := recorder_with_components) distinct =
    (Ok {| Estimator.weights := [3];
           Estimator.components := [Estimator.Fitted 1];
           Estimator.d_cache_len := [3];
           Estimator.d_latest_data := [(0, 0)%Z] |},
     Estimator.with_model [[10; 20; 30]%Z] distinct).
Proof.
  split.
  - exact (proj1 (proj1 (missing_components_replaced_by_empty _ _ recorder distinct)
                    [10; 20; 30]%Z 3 [[10; 20; 30]%Z] [] (0, 0)%Z
                    eq_refl eq_refl eq_refl) eq_refl).
  - exact (proj2 (proj1 (missing_components_replaced_by_empty _ _
                           recorder_with_components distinct)
                    [10; 20; 30]%Z 3 [[10; 20; 30]%Z] [] (0, 0)%Z
                    eq_refl eq_refl eq_refl) 1 eq_refl).
Defined.

(** C8 fails as stated: on a fresh agent told [(1, 2)], with an empty
    [tell_cache], the sort and [fit_transform] succeed and the fitted model
    has no [components_], yet [report] raises [IndexError] instead of
    returning the dictionary; the model has been refitted. *)
Lemma missing_components_report_still_fails :
  Estimator.sorted_observables told_once = Ok [2]%Z /\
  Estimator.fit_transform (Decomposer := recorder)
    (Estimator.model told_once) [2]%Z = (Ok 1, [[2]%Z]) /\
  Estimator.components_ (Decomposer := recorder) [[2]%Z] = None /\
  Estimator.decomposition_report (dec := recorder) told_once =
    (Raise IndexError, Estimator.with_model [[2]%Z] told_once).
Proof. repeat split. Qed.

(** C9 on an agent told [(1, 2)] over a base [tell_cache] of [[(0, 0)]]. *)
Lemma latest_data_is_last_tell_cache_entry_witness :
  exists doc,
    Estimator.decomposition_report (dec := recorder) told_over_base =
      (Ok doc, Estimator.with_model [[2]%Z] told_over_base) /\
    Estimator.d_latest_data doc = [(0, 0)%Z].
Proof.
  exact (proj1 (proj1 (proj2 latest_data_is_last_tell_cache_entry)
                  _ _ _ _ _ _ _ _ recorder told_over_base
                  [2]%Z 1 [[2]%Z] eq_refl eq_refl)
               [] (0, 0)%Z eq_refl).
Defined.

(** C9 fails: after [tell(1, 2)] on a fresh agent, [latest_data] is not
    [(1, 2)].  It is the entry the base class left in [tell_cache], and
    [report] raises [IndexError] when the base class left none. *)
Lemma latest_data_not_the_told_pair :
  fst (Estimator.decomposition_report (dec := recorder) told_once) =
    Raise IndexError /\
  fst (Estimator.cluster_report (clu := cluster_recorder) told_once) =
    Raise IndexError /\
  (exists doc,
     fst (Estimator.decomposition_report (dec := recorder) told_over_base) = Ok doc /\
     Estimator.d_latest_data doc = [(0, 0)%Z] /\
     Estimator.d_latest_data doc <> [(1, 2)%Z]) /\
  (exists doc,
     fst (Estimator.cluster_report (clu := cluster_recorder) told_over_base) = Ok doc /\
     Estimator.c_latest_data doc = [(0, 0)%Z] /\
     Estimator.c_latest_data doc <> [(1, 2)%Z]).
Proof.
  split; [reflexivity|]. split; [reflexivity|].
  split; eexists; (split; [reflexivity|]); split; [reflexivity|discriminate|reflexivity|discriminate].
Qed.

End Instances.

(** * Further properties of the sequential agent *)

Section SequentialFrame.

Import Sequential.

Variables X Y : Type.

Implicit Types s : agent X Y.

Lemma same_data_next s : same_data s (snd (next (bump s))).
Proof.
  unfold next.
  destruct (advance (relative_bounds (bump s)) (remaining (bump s))) as [[ws out] g].
  repeat split.
Qed.

Lemma same_data_trans s s1 s2 : same_data s s1 -> same_data s1 s2 -> same_data s s2.
Proof.
  unfold same_data. intros (A & B & C & D) (A' & B' & C' & D').
  rewrite A', B', C', D'. repeat split; assumption.
Qed.

Lemma ask_loop_same_data (k : nat) : forall (acc : list value) s r s',
  ask_loop k acc s = (r, s') -> same_data s s'.
Proof.
  induction k as [|k IH]; intros acc s r s'; simpl.
  - intros [= _ <-]. repeat split.
  - pose proof (same_data_next s) as Hn.
    destruct (next (bump s)) as [[p|e] s1]; simpl in Hn.
    + intros Hl. eapply same_data_trans; [exact Hn|]. eapply IH. exact Hl.
    + intros [= _ <-]. exact Hn.
Qed.

Lemma ask_loop_length (k : nat) : forall (acc acc' : list value) s s',
  ask_loop k acc s = (Ok acc', s') -> length acc' = length acc + k.
Proof.
  induction k as [|k IH]; intros acc acc' s s'; simpl.
  - intros [= <- _]. lia.
  - destruct (next (bump s)) as [[p|e] s1]; [|discriminate].
    intros Hl. apply IH in Hl. rewrite Hl, length_app. simpl. lia.
Qed.

Lemma ask_loop_raise (k : nat) : forall (acc : list value) s e s',
  ask_loop k acc s = (Raise e, s') ->
  position_generator s' = Closed /\
  ask_count s < ask_count s' <= ask_count s + k.
Proof.
  induction k as [|k IH]; intros acc s e s'; simpl.
  - discriminate.
  - pose proof (next_ask_count (bump s)) as Hc.
    destruct (next (bump s)) as [[p|e'] s1] eqn:Hn; simpl in Hc.
    + intros Hl. apply IH in Hl. destruct Hl as [Hcl Hb]. split; [exact Hcl|lia].
    + intros [= <- <-]. split; [|lia].
      pose proof (next_raise_closed (bump s) (e := e')) as Hcl.
      rewrite Hn in Hcl. apply Hcl. reflexivity.
Qed.

(** The accumulator only prefixes what the loop draws. *)
Lemma ask_loop_acc (k : nat) : forall (acc : list value) s,
  ask_loop k acc s =
    match ask_loop k [] s with
    | (Ok props, s') => (Ok (acc ++ props), s')
    | (Raise e, s') => (Raise e, s')
    end.
Proof.
  induction k as [|k IH]; intros acc s; simpl.
  - rewrite app_nil_r. reflexivity.
  - destruct (next (bump s)) as [[p|e] s1]; [|reflexivity].
    rewrite (IH (acc ++ [p])), (IH [p]).
    destruct (ask_loop k [] s1) as [[props|e] s2]; [|reflexivity].
    rewrite <- app_assoc. reflexivity.
Qed.

Lemma next_tell (x : X) (y : Y) s :
  next (bump (snd (tell x y s))) =
    (fst (next (bump s)), snd (tell x y (snd (next (bump s))))).
Proof.
  unfold next, remaining. simpl.
  destruct (advance (relative_bounds s)
                    match position_generator s with
                    | Created => sequence s
                    | Suspended rest => rest
                    | Closed => []
                    end) as [[ws out] g].
  reflexivity.
Qed.

Lemma ask_loop_tell (x : X) (y : Y) (k : nat) : forall (acc : list value) s,
  ask_loop k acc (snd (tell x y s)) =
    (fst (ask_loop k acc s), snd (tell x y (snd (ask_loop k acc s)))).
Proof.
  induction k as [|k IH]; intros acc s.
  - reflexivity.
  - cbn [ask_loop]. rewrite next_tell.
    destruct (next (bump s)) as [[p|e] s1]; cbn [fst snd].
    + apply IH.
    + reflexivity.
Qed.

(** X1.  A successful [ask k] returns exactly [k] proposals, whatever the
    bounds; the document holds the same list and the new counter, the
    counter has grown by [k], and caches, sequence and bounds are as before. *)
Theorem ask_success_accounting s s' (k : nat) (doc : ask_doc) (props : list value) :
  ask k s = (Ok (doc, props), s') ->
  length props = k /\
  proposal doc = props /\
  doc_ask_count doc = [ask_count s + k] /\
  ask_count s' = ask_count s + k /\
  same_data s s'.
Proof.
  unfold ask. destruct (ask_loop k [] s) as [[acc|e] s1] eqn:Hl; [|discriminate].
  intros [= <- <- <-].
  pose proof (ask_loop_length _ _ _ Hl) as Hlen.
  pose proof (ask_loop_count _ _ _ Hl) as Hc.
  pose proof (ask_loop_same_data _ _ _ Hl) as Hd.
  simpl in Hlen. simpl. rewrite Hc. repeat split; try assumption; apply Hd.
Qed.

(** X2.  A failed [ask k], whatever it raises, leaves the generator
    finished; it has counted at least one and at most [k] draws, and caches,
    sequence and bounds are as before. *)
Theorem ask_failure_closes_generator s s' (k : nat) (e : exn) :
  ask k s = (Raise e, s') ->
  position_generator s' = Closed /\
  ask_count s < ask_count s' <= ask_count s + k /\
  same_data s s'.
Proof.
  unfold ask. destruct (ask_loop k [] s) as [[acc|e'] s1] eqn:Hl; [discriminate|].
  intros [= <- <-].
  destruct (ask_loop_raise _ _ _ Hl) as [Hcl Hb].
  pose proof (ask_loop_same_data _ _ _ Hl) as Hd.
  repeat split; try assumption; try lia; apply Hd.
Qed.

(** X3.  Once the generator is finished, every [ask] for one or more points
    raises [StopIteration] and still adds one to [ask_count]: the counter
    counts attempts, not proposals. *)
Theorem ask_on_finished_generator s (m : nat) :
  position_generator s = Closed ->
  0 < m ->
  exists s',
    ask m s = (Raise StopIteration, s') /\
    ask_count s' = ask_count s + 1 /\
    position_generator s' = Closed /\
    log s' = log s /\
    same_data s s'.
Proof.
  intros Hc Hm. destruct m as [|m]; [lia|].
  exists (snd (next (bump s))).
  assert (Hn : next (bump s) =
               (Raise StopIteration,
                {| independent_cache := independent_cache s;
                   observable_cache := observable_cache s;
                   sequence := sequence s;
                   relative_bounds := relative_bounds s;
                   ask_count := ask_count s + 1;
                   position_generator := Closed;
                   log := log s ++ [] |})).
  { unfold next, remaining. cbn [bump position_generator]. rewrite Hc. reflexivity. }
  unfold ask. cbn [ask_loop]. rewrite Hn. cbn [snd].
  rewrite app_nil_r. repeat split.
Qed.

(** X4.  One batch of [j + m] is the batch of [j] followed by the batch of
    [m]: the proposals are concatenated, the document carries the final
    counter, and the first failure of either is the failure of the whole. *)
Theorem ask_batches_compose s (j m : nat) :
  ask (j + m) s =
    match ask j s with
    | (Ok (_, p1), s1) =>
        match ask m s1 with
        | (Ok (d2, p2), s2) =>
            (Ok ({| proposal := p1 ++ p2; doc_ask_count := doc_ask_count d2 |},
                 p1 ++ p2), s2)
        | (Raise e, s2) => (Raise e, s2)
        end
    | (Raise e, s1) => (Raise e, s1)
    end.
Proof.
  unfold ask. rewrite ask_loop_add.
  destruct (ask_loop j [] s) as [[p1|e] s1]; [|reflexivity].
  rewrite ask_loop_acc.
  destruct (ask_loop m [] s1) as [[p2|e] s2]; reflexivity.
Qed.

(** X5.  [tell] and [ask] do not interfere: telling first does not change
    what [ask] returns, and the two orders end in the same state. *)
Theorem tell_commutes_with_ask s (x : X) (y : Y) (k : nat) :
  ask k (snd (tell x y s)) =
    (fst (ask k s), snd (tell x y (snd (ask k s)))).
Proof.
  unfold ask. rewrite ask_loop_tell.
  destruct (ask_loop k [] s) as [[props|e] s1]; reflexivity.
Qed.

End SequentialFrame.

(** * Bounds over sequences of numbers *)

Section ScalarBounds.

Import Sequential.

Variables X Y : Type.
Variables low high : Z.

Implicit Types s : agent X Y.

Let bs : option (value * value) := Some (Scalar low, Scalar high).

Lemma visit_scalar (p : Z) :
  visit bs (Scalar p) =
    if in_bounds low high p then Emit (Scalar p)
    else Skip (out_of_bounds low high p).
Proof.
  unfold bs, visit, condition, py_or, np_le, np_ge, np_array, in_bounds. simpl.
  destruct (p <=? high)%Z; simpl; [reflexivity|].
  destruct (p >=? low)%Z; reflexivity.
Qed.

Lemma filter_none_negb A (f : A -> bool) : forall l,
  filter f l = [] -> filter (fun a => negb (f a)) l = l.
Proof.
  induction l as [|a l IH]; simpl; [reflexivity|].
  destruct (f a); [discriminate|]. simpl. intros H. rewrite IH by exact H. reflexivity.
Qed.

(** With no number left that passes, the generator logs them all and ends. *)
Lemma advance_scalar_none : forall zs,
  filter (in_bounds low high) zs = [] ->
  advance bs (map Scalar zs) =
    (map (out_of_bounds low high) zs, Raise StopIteration, Closed).
Proof.
  induction zs as [|z zs IH]; intros Hf.
  - reflexivity.
  - cbn [map advance]. rewrite visit_scalar. simpl in Hf.
    destruct (in_bounds low high z); [discriminate|].
    rewrite IH by exact Hf. reflexivity.
Qed.

(** Otherwise it logs the rejected numbers up to the first that passes. *)
Lemma advance_scalar_some : forall zs z fs,
  filter (in_bounds low high) zs = z :: fs ->
  exists skipped zs',
    zs = skipped ++ z :: zs' /\
    filter (in_bounds low high) skipped = [] /\
    filter (in_bounds low high) zs' = fs /\
    advance bs (map Scalar zs) =
      (map (out_of_bounds low high) skipped, Ok (Scalar z), Suspended (map Scalar zs')).
Proof.
  induction zs as [|a zs IH]; intros z fs Hf; [discriminate|].
  cbn [map advance]. rewrite visit_scalar. simpl in Hf.
  destruct (in_bounds low high a) eqn:Ha.
  - injection Hf as -> Hfs. exists [], zs. repeat split. exact Hfs.
  - destruct (IH z fs Hf) as (skipped & zs' & Hz & Hsk & Hrest & Hadv).
    exists (a :: skipped), zs'. cbn [filter]. rewrite Ha, Hadv.
    repeat split; try assumption. rewrite Hz. reflexivity.
Qed.

Lemma ask_loop_bounded (k : nat) : forall (zs : list Z) (acc : list value) s,
  relative_bounds s = bs ->
  remaining s = map Scalar zs ->
  k <= length (filter (in_bounds low high) zs) ->
  exists s' visited rest,
    zs = visited ++ rest /\
    filter (in_bounds low high) visited = firstn k (filter (in_bounds low high) zs) /\
    ask_loop k acc s =
      (Ok (acc ++ map Scalar (filter (in_bounds low high) visited)), s') /\
    log s' = log s ++ map (out_of_bounds low high)
                          (filter (fun z => negb (in_bounds low high z)) visited) /\
    remaining s' = map Scalar rest /\
    ask_count s' = ask_count s + k /\
    relative_bounds s' = bs.
Proof.
  induction k as [|k IH]; intros zs acc s Hb Hr Hk.
  - exists s, [], zs. simpl. rewrite !app_nil_r, Nat.add_0_r. repeat split; assumption.
  - destruct (filter (in_bounds low high) zs) as [|z fs] eqn:Hf; [simpl in Hk; lia|].
    destruct (advance_scalar_some _ Hf) as (skipped & zs' & Hz & Hsk & Hrest & Hadv).
    assert (Hn : next (bump s) =
                 (Ok (Scalar z),
                  {| independent_cache := independent_cache s;
                     observable_cache := observable_cache s;
                     sequence := sequence s;
                     relative_bounds := relative_bounds s;
                     ask_count := ask_count s + 1;
                     position_generator := Suspended (map Scalar zs');
                     log := log s ++ map (out_of_bounds low high) skipped |})).
    { unfold next. rewrite remaining_bump, Hr. cbn [bump relative_bounds].
      rewrite Hb, Hadv. reflexivity. }
    cbn [ask_loop]. rewrite Hn. cbv beta iota.
    match goal with |- context [ask_loop k _ ?t] => set (s1 := t) end.
    destruct (IH zs' (acc ++ [Scalar z]) s1) as
      (s' & visited & rest & Hv & Hfv & Hl & Hlog & Hrem & Hc & Hbs).
    + exact Hb.
    + reflexivity.
    + rewrite Hrest. simpl in Hk. lia.
    + subst s1. cbn [log ask_count] in Hlog, Hc.
      exists s', (skipped ++ z :: visited), rest.
      assert (Hzin : in_bounds low high z = true).
      { assert (Hin : In z (filter (in_bounds low high) zs)) by (rewrite Hf; left; reflexivity).
        apply filter_In in Hin. apply Hin. }
      rewrite !filter_app. cbn [filter]. rewrite Hzin, Hsk. cbn [negb app].
      rewrite (filter_none_negb _ _ Hsk).
      split; [rewrite Hz, Hv, <- app_assoc; reflexivity|].
      split; [rewrite Hfv, Hrest; reflexivity|].
      split; [etransitivity; [exact Hl|]; rewrite <- app_assoc; reflexivity|].
      split; [rewrite Hlog, map_app, app_assoc; reflexivity|].
      split; [exact Hrem|].
      split; [rewrite Hc; lia|exact Hbs].
Qed.

(** X6.  Under number bounds over a sequence of numbers, [ask k] visits a
    prefix of the remaining numbers: the proposals are the numbers of that
    prefix that pass the test, the first [k] that pass overall, in order, and
    the log gains one warning for each number of the prefix that fails it. *)
Theorem bounded_ask_filters s (zs : list Z) (k : nat) :
  relative_bounds s = Some (Scalar low, Scalar high) ->
  remaining s = map Scalar zs ->
  k <= length (filter (in_bounds low high) zs) ->
  exists s' visited rest,
    zs = visited ++ rest /\
    filter (in_bounds low high) visited = firstn k (filter (in_bounds low high) zs) /\
    ask k s =
      (Ok ({| proposal := map Scalar (filter (in_bounds low high) visited);
              doc_ask_count := [ask_count s + k] |},
           map Scalar (filter (in_bounds low high) visited)), s') /\
    log s' = log s ++ map (out_of_bounds low high)
                          (filter (fun z => negb (in_bounds low high z)) visited) /\
    remaining s' = map Scalar rest.
Proof.
  intros Hb Hr Hk.
  destruct (@ask_loop_bounded k zs [] s Hb Hr Hk) as
    (s' & visited & rest & Hv & Hfv & Hl & Hlog & Hrem & Hc & _).
  exists s', visited, rest. unfold ask. rewrite Hl, Hc. simpl.
  repeat split; assumption.
Qed.

(** X7.  When fewer than [k] of the remaining numbers pass the test,
    [ask k] raises [StopIteration] after logging a warning for every
    remaining number that fails it; the counter ends one above the number of
    successful draws. *)
Theorem bounded_ask_exhausts s (zs : list Z) (k : nat) :
  relative_bounds s = Some (Scalar low, Scalar high) ->
  remaining s = map Scalar zs ->
  length (filter (in_bounds low high) zs) < k ->
  exists s',
    ask k s = (Raise StopIteration, s') /\
    ask_count s' = ask_count s + length (filter (in_bounds low high) zs) + 1 /\
    log s' = log s ++ map (out_of_bounds low high)
                          (filter (fun z => negb (in_bounds low high z)) zs) /\
    position_generator s' = Closed.
Proof.
  intros Hb Hr Hk.
  set (j := length (filter (in_bounds low high) zs)) in *.
  destruct (@ask_loop_bounded j zs [] s Hb Hr (le_n j)) as
    (s1 & visited & rest & Hv & Hfv & Hl & Hlog & Hrem & Hc & Hbs).
  assert (Hfr : filter (in_bounds low high) rest = []).
  { unfold j in Hfv. rewrite firstn_all in Hfv.
    rewrite Hv, filter_app in Hfv.
    rewrite <- (app_nil_r (filter (in_bounds low high) visited)) in Hfv at 1.
    apply app_inv_head in Hfv. symmetry. exact Hfv. }
  assert (Hn : next (bump s1) =
               (Raise StopIteration,
                {| independent_cache := independent_cache s1;
                   observable_cache := observable_cache s1;
                   sequence := sequence s1;
                   relative_bounds := relative_bounds s1;
                   ask_count := ask_count s1 + 1;
                   position_generator := Closed;
                   log := log s1 ++ map (out_of_bounds low high) rest |})).
  { unfold next. rewrite remaining_bump, Hrem. cbn [bump relative_bounds].
    rewrite Hbs, (advance_scalar_none _ Hfr). reflexivity. }
  eexists. unfold ask.
  replace k with (j + S (k - j - 1)) by lia.
  rewrite ask_loop_add, Hl. cbn [ask_loop]. rewrite Hn.
  split; [reflexivity|]. cbn [ask_count log position_generator].
  split; [rewrite Hc; lia|]. split; [|reflexivity].
  rewrite Hlog, Hv, filter_app, map_app, <- app_assoc.
  rewrite (filter_none_negb _ _ Hfr). reflexivity.
Qed.


End ScalarBounds.

Lemma forallb_map_id A (f : A -> bool) : forall l,
  forallb (fun b => b) (map f l) = forallb f l.
Proof.
  induction l as [|a l IH]; simpl; [reflexivity|]. rewrite IH. reflexivity.
Qed.

(** X9.  The test short-circuits: a number that is [<= high] is yielded
    without the lower bound being looked at, whatever that bound is.  Above
    [high], an array lower bound of two or more elements takes the [except]
    path: the number is yielded when it is [>=] every element of the bound
    and skipped with a warning otherwise. *)
Theorem scalar_point_array_lower_bound (low : value) (l1 l2 : Z) (lows : list Z)
  (high p : Z) :
  ((p <= high)%Z ->
     Sequential.visit (Some (low, Scalar high)) (Scalar p) =
       Sequential.Emit (Scalar p)) /\
  ((high < p)%Z ->
     Sequential.visit (Some (Array1 (l1 :: l2 :: lows), Scalar high)) (Scalar p) =
       if forallb (fun l => (l <=? p)%Z) (l1 :: l2 :: lows)
       then Sequential.Emit (Scalar p)
       else Sequential.Skip
              {| Sequential.skipped := Scalar p;
                 Sequential.bounds := (Array1 (l1 :: l2 :: lows), Scalar high) |}).
Proof.
  split.
  - intros Hp. apply Z.leb_le in Hp.
    unfold Sequential.visit, Sequential.condition, py_or, np_le, np_array. simpl.
    rewrite Hp. reflexivity.
  - intros Hp. apply Z.leb_gt in Hp.
    unfold Sequential.visit, Sequential.condition, py_or, np_le, np_ge, np_array.
    cbn [broadcast bind truth]. rewrite Hp. cbn [map truth np_all].
    cbn [forallb]. rewrite forallb_map_id, !Z.geb_leb.
    replace (forallb (Z.geb p) lows) with (forallb (fun l => (l <=? p)%Z) lows).
    + reflexivity.
    + induction lows as [|l lows' IH]; simpl; [reflexivity|].
      rewrite IH, Z.geb_leb. reflexivity.
Qed.

(** X10.  The document returned by the [n]-th [tell] on a fresh agent of
    either kind holds the told [x] and [y] and [cache_len = [n]]. *)
Theorem tell_document_counts_calls (X Y M T : Type) (calls : list (X * Y))
  (x : X) (y : Y) (sequence : list value) (relative_bounds : option (value * value))
  (estimator : M) (base_tell_cache : list T) :
  fst (Sequential.tell x y
         (seq_tells calls (Sequential.init X Y sequence relative_bounds))) =
    {| Sequential.independent_variable := [x];
       Sequential.observable := [y];
       Sequential.cache_len := [S (length calls)] |} /\
  fst (Estimator.tell x y
         (est_tells calls (Estimator.init estimator base_tell_cache))) =
    {| Estimator.independent_variable := [x];
       Estimator.observable := [y];
       Estimator.cache_len := [S (length calls)] |}.
Proof.
  destruct (seq_tells_caches calls (Sequential.init X Y sequence relative_bounds))
    as [Hs _].
  destruct (est_tells_caches calls (Estimator.init estimator base_tell_cache))
    as [He _].
  unfold Sequential.tell, Estimator.tell.
  cbn [fst Sequential.independent_cache Estimator.independent_cache].
  rewrite Hs, He. cbn [Sequential.init Estimator.init
                       Sequential.independent_cache Estimator.independent_cache app].
  rewrite !length_app, !length_map. cbn [length]. rewrite Nat.add_1_r.
  split; reflexivity.
Qed.

(** X11.  On a fresh agent without bounds over [n > 0] points: [ask k] with
    [k <= n] returns the first [k] points and [report] then gives [k / n];
    [ask k] with [k > n] raises [StopIteration], leaves [ask_count = n + 1],
    and [report] then gives [(n + 1) / n], more than one. *)
Theorem fresh_unbounded_progress (X Y : Type) (sequence : list value) (k : nat) :
  let s0 := Sequential.init X Y sequence None in
  let n := length sequence in
  sequence <> [] ->
  (k <= n ->
     fst (Sequential.ask k s0) =
       Ok ({| Sequential.proposal := firstn k sequence;
              Sequential.doc_ask_count := [k] |}, firstn k sequence) /\
     Sequential.report (snd (Sequential.ask k s0)) =
       Ok {| Sequential.percent_completion :=
               [Qmake (Z.of_nat k) (Pos.of_nat n)] |}) /\
  (n < k ->
     fst (Sequential.ask k s0) = Raise StopIteration /\
     Sequential.ask_count (snd (Sequential.ask k s0)) = S n /\
     Sequential.report (snd (Sequential.ask k s0)) =
       Ok {| Sequential.percent_completion :=
               [Qmake (Z.of_nat (S n)) (Pos.of_nat n)] |} /\
     (1 < Qmake (Z.of_nat (S n)) (Pos.of_nat n))%Q).
Proof.
  intros s0 n Hne.
  assert (Hrep : forall s : Sequential.agent X Y,
             Sequential.sequence s = sequence ->
             Sequential.report s =
               Ok {| Sequential.percent_completion :=
                       [Qmake (Z.of_nat (Sequential.ask_count s)) (Pos.of_nat n)] |}).
  { intros s Hs. unfold Sequential.report, Sequential.truediv. rewrite Hs. fold n.
    destruct sequence; [contradiction|]. reflexivity. }
  split.
  - intros Hk.
    destruct (@ask_loop_unbounded X Y k [] s0 eq_refl Hk) as (s' & Hl & Hc & _).
    pose proof (ask_loop_same_data _ _ _ Hl) as (_ & _ & Hseq & _).
    unfold Sequential.ask. rewrite Hl. cbn [fst snd app]. rewrite Hc. cbn.
    split; [reflexivity|]. rewrite (Hrep s' Hseq), Hc. reflexivity.
  - intros Hk.
    destruct (@ask_loop_unbounded X Y n [] s0 eq_refl (le_n n))
      as (s1 & Hl & Hc & Hrem & Hb).
    pose proof (ask_loop_same_data _ _ _ Hl) as (_ & _ & Hseq & _).
    assert (Hn : Sequential.next (Sequential.bump s1) =
                 (Raise StopIteration,
                  {| Sequential.independent_cache := Sequential.independent_cache s1;
                     Sequential.observable_cache := Sequential.observable_cache s1;
                     Sequential.sequence := Sequential.sequence s1;
                     Sequential.relative_bounds := Sequential.relative_bounds s1;
                     Sequential.ask_count := Sequential.ask_count s1 + 1;
                     Sequential.position_generator := Sequential.Closed;
                     Sequential.log := Sequential.log s1 ++ [] |})).
    { unfold Sequential.next. rewrite remaining_bump, Hrem.
      cbn [Sequential.bump Sequential.relative_bounds]. rewrite Hb.
      unfold n. rewrite skipn_all. reflexivity. }
    unfold Sequential.ask.
    replace k with (n + S (k - n - 1)) by lia.
    rewrite ask_loop_add, Hl. cbn [Sequential.ask_loop]. rewrite Hn.
    cbn [fst snd Sequential.ask_count]. rewrite Hc. cbn [Sequential.ask_count Sequential.init].
    change (Sequential.ask_count s0) with 0.
    replace (0 + n + 1) with (S n) by lia.
    split; [reflexivity|]. split; [reflexivity|]. split.
    + rewrite Hrep by exact Hseq. reflexivity.
    + unfold Qlt. cbn [Qnum Qden].
      assert (Hpos : 0 < n) by (unfold n; destruct sequence; [contradiction|simpl; lia]).
      rewrite Z.mul_1_l, Z.mul_1_r.
      replace (Z.pos (Pos.of_nat n)) with (Z.of_nat n); [lia|].
      destruct n as [|n']; [lia|]. rewrite <- Pos.of_nat_succ.
      rewrite Zpos_P_of_succ_nat. lia.
Qed.

(** * Further properties of the estimator agents *)

Lemma combine_fst_snd A B : forall l : list (A * B),
  combine (map fst l) (map snd l) = l.
Proof.
  induction l as [|[a b] l IH]; simpl; [reflexivity|]. rewrite IH. reflexivity.
Qed.

Lemma map_fst_combine_same_length A B : forall (xs : list A) (ys : list B),
  length xs = length ys -> map fst (combine xs ys) = xs.
Proof.
  induction xs as [|x xs IH]; intros [|y ys] Hl; simpl in *; try discriminate.
  - reflexivity.
  - rewrite IH by lia. reflexivity.
Qed.

Lemma last_item_ok A (l : list A) (a : A) :
  last_item l = Ok a -> exists l', l = l' ++ [a].
Proof.
  unfold last_item. destruct (rev l) as [|b r] eqn:Hr; [discriminate|].
  intros [= ->]. exists (rev r).
  rewrite <- (rev_involutive l), Hr. reflexivity.
Qed.

Section EstimatorFrame.

Import Estimator.

Variables X Y M T W C P D K : Type.
Context {cx : Comparable X} {cy : Comparable Y}.
Context {dec : Decomposer M Y W C} {clu : Clusterer M Y P D K}.

Implicit Types s : agent X Y M T.

Lemma decomposition_fit_state (arr : list Y) s :
  snd (decomposition_fit arr s) = with_model (snd (fit_transform (model s) arr)) s.
Proof.
  unfold decomposition_fit.
  destruct (fit_transform (model s) arr) as [[w|e] m]; [|reflexivity].
  cbn [snd with_model tell_cache].
  destruct (last_item (tell_cache s)); reflexivity.
Qed.

Lemma cluster_fit_state (arr : list Y) s :
  snd (cluster_fit arr s) = with_model (snd (fit (model s) arr)) s.
Proof.
  unfold cluster_fit.
  destruct (fit (model s) arr) as [[u|e] m]; reflexivity.
Qed.

Lemma sorted_observables_with_model (m : M) s :
  sorted_observables (with_model m s) = sorted_observables s.
Proof. reflexivity. Qed.

(** X12.  A report changes nothing but the model: caches and [tell_cache]
    are as before, so a second report is fitted on the same array.  When the
    sort raises, the model is not called and the agent is untouched; when it
    succeeds, the model is left as the fitting call left it, also when the
    report then fails. *)
Theorem reports_only_touch_the_model s :
  let d := snd (decomposition_report s) in
  let c := snd (cluster_report s) in
  (independent_cache d = independent_cache s /\
   observable_cache d = observable_cache s /\
   tell_cache d = tell_cache s /\
   sorted_observables d = sorted_observables s) /\
  (independent_cache c = independent_cache s /\
   observable_cache c = observable_cache s /\
   tell_cache c = tell_cache s /\
   sorted_observables c = sorted_observables s) /\
  (forall e, sorted_observables s = Raise e ->
     decomposition_report s = (Raise e, s) /\ cluster_report s = (Raise e, s)) /\
  (forall arr, sorted_observables s = Ok arr ->
     model d = snd (fit_transform (model s) arr) /\
     model c = snd (fit (model s) arr)).
Proof.
  intros d c. subst d c. unfold decomposition_report, cluster_report.
  destruct (sorted_observables s) as [arr|e] eqn:Hs.
  - rewrite decomposition_fit_state, cluster_fit_state.
    rewrite !sorted_observables_with_model, Hs.
    split; [repeat split|]. split; [repeat split|]. split.
    + intros e [=].
    + intros arr' [= <-]. split; reflexivity.
  - cbn [snd]. rewrite Hs.
    split; [repeat split|]. split; [repeat split|]. split.
    + intros e' [= <-]. split; reflexivity.
    + intros arr [=].
Qed.

(** X13.  After any run of [tell] calls on a fresh agent, the array a
    report is fitted on holds exactly the told observables, each once, in
    some order, and a report that succeeds gives their number as
    [cache_len]. *)
Theorem reports_fit_the_told_observables (calls : list (X * Y)) (estimator : M)
  (base_tell_cache : list T) (arr : list Y) :
  let s := est_tells calls (init estimator base_tell_cache) in
  sorted_observables s = Ok arr ->
  Permutation arr (map snd calls) /\
  length arr = length calls /\
  (forall doc s', decomposition_report s = (Ok doc, s') ->
     d_cache_len doc = [length calls]) /\
  (forall doc s', cluster_report s = (Ok doc, s') ->
     c_cache_len doc = [length calls]).
Proof.
  intros s Hs.
  destruct (est_tells_caches calls (init estimator base_tell_cache))
    as (Hi & Ho & _ & _).
  fold s in Hi, Ho. simpl in Hi, Ho.
  assert (Hp : Permutation arr (map snd calls)).
  { unfold sorted_observables, sorted_pairs in Hs. rewrite Hi, Ho, combine_fst_snd in Hs.
    destruct (sorted tuple_lt calls) as [ps|e] eqn:Hps; [|discriminate].
    injection Hs as <-. apply Permutation_map. eapply sorted_perm. exact Hps. }
  split; [exact Hp|]. split.
  - rewrite (Permutation_length Hp). apply length_map.
  - assert (Hn : length (independent_cache s) = length calls)
      by (rewrite Hi; apply length_map).
    split; intros doc s'.
    + unfold decomposition_report, decomposition_fit. rewrite Hs.
      destruct (fit_transform (model s) arr) as [[w|e] m]; [|discriminate].
      cbn [with_model tell_cache independent_cache].
      destruct (last_item (tell_cache s)); [|discriminate].
      intros [= <- _]. cbn [d_cache_len]. rewrite Hn. reflexivity.
    + unfold cluster_report, cluster_fit. rewrite Hs.
      destruct (fit (model s) arr) as [[u|e] m]; [|discriminate].
      destruct (predict m arr); [|discriminate].
      destruct (transform m arr); [|discriminate].
      destruct (cluster_centers_ m); [|discriminate].
      cbn [with_model tell_cache independent_cache bind].
      destruct (last_item (tell_cache s)); [|discriminate].
      cbn [bind]. intros [= <- _]. cbn [c_cache_len]. rewrite Hn. reflexivity.
Qed.

(** X14.  The clustering report succeeds exactly when the sort, [fit],
    [predict] and [transform] succeed, the fitted model has
    [cluster_centers_] and [tell_cache] is not empty.  A fitted model without
    [cluster_centers_] makes it raise [AttributeError], with [tell_cache]
    empty or not, and the model stays refitted. *)
Theorem cluster_report_outcome s :
  (forall doc s',
     cluster_report s = (Ok doc, s') <->
     exists arr u m cl ds k tc t,
       sorted_observables s = Ok arr /\
       fit (model s) arr = (Ok u, m) /\
       predict m arr = Ok cl /\
       transform m arr = Ok ds /\
       cluster_centers_ m = Some k /\
       tell_cache s = tc ++ [t] /\
       doc = {| clusters := [cl];
                distances := [ds];
                cluster_centers := [k];
                c_cache_len := [length (independent_cache s)];
                c_latest_data := [t] |} /\
       s' = with_model m s) /\
  (forall arr u m cl ds,
     sorted_observables s = Ok arr ->
     fit (model s) arr = (Ok u, m) ->
     predict m arr = Ok cl ->
     transform m arr = Ok ds ->
     cluster_centers_ m = None ->
     cluster_report s = (Raise AttributeError, with_model m s)).
Proof.
  split.
  - intros doc s'. unfold cluster_report, cluster_fit. split.
    + destruct (sorted_observables s) as [arr|e]; [|discriminate].
      destruct (fit (model s) arr) as [[u|e] m] eqn:Hf; [|discriminate].
      destruct (predict m arr) as [cl|e] eqn:Hp; [|discriminate].
      destruct (transform m arr) as [ds|e] eqn:Ht; [|discriminate].
      destruct (cluster_centers_ m) as [k|] eqn:Hk; [|discriminate].
      cbn [with_model tell_cache independent_cache bind].
      destruct (last_item (tell_cache s)) as [t|e] eqn:Hl; [|discriminate].
      cbn [bind]. intros [= <- <-].
      destruct (last_item_ok _ Hl) as [tc Htc].
      exists arr, u, m, cl, ds, k, tc, t. repeat split; assumption.
    + intros (arr & u & m & cl & ds & k & tc & t & Hs & Hf & Hp & Ht & Hk & Htc & -> & ->).
      rewrite Hs, Hf, Hp, Ht, Hk.
      cbn [with_model tell_cache independent_cache bind].
      rewrite Htc, last_item_snoc. reflexivity.
  - intros arr u m cl ds Hs Hf Hp Ht Hk.
    unfold cluster_report, cluster_fit. rewrite Hs, Hf, Hp, Ht, Hk. reflexivity.
Qed.

End EstimatorFrame.

(** ** Repeated independent values under observables that cannot be compared *)

Section UncomparableObservables.

Variable B : Type.
Context {cb : Comparable B}.
Variable e : exn.

Lemma sorted_key_ordered (l : list (Z * B)) :
  exists r, sorted key_lt l = Ok r /\ Permutation r l /\ StronglySorted key_le r.
Proof.
  apply sorted_ordered with (ltb := fun p q : Z * B => (fst p <? fst q)%Z).
  - intros a b. reflexivity.
  - intros a b H. apply Z.ltb_lt in H. unfold key_le. lia.
  - intros a b H. apply Z.ltb_ge in H. exact H.
  - intros a b c. unfold key_le. lia.
Qed.

(** Inserting a pair whose key is already there reaches the pair that
    holds the key and compares the two observables. *)
Lemma insert_tuple_raises (a : Z * B) : forall r,
  StronglySorted key_le r ->
  In (fst a) (map fst r) ->
  (forall b, In b r -> py_eq (snd b) (snd a) = Raise e) ->
  insert_sorted tuple_lt a r = Raise e.
Proof.
  induction r as [|b r IH]; intros Hs Hin Hraise; [contradiction|].
  cbn [insert_sorted]. inversion Hs as [|? ? Hs' Hall]; subst.
  unfold tuple_lt at 1. cbn [py_eq Z_Comparable bind].
  destruct (Z.eqb_spec (fst b) (fst a)) as [Heq|Hne].
  - rewrite (Hraise b (or_introl eq_refl)). reflexivity.
  - assert (Hin' : In (fst a) (map fst r)).
    { destruct Hin as [Hb|Hr]; [contradiction|exact Hr]. }
    assert (Hlt : (fst b <? fst a)%Z = true).
    { apply Z.ltb_lt. apply in_map_iff in Hin'. destruct Hin' as [c [Hc Hcin]].
      rewrite Forall_forall in Hall. specialize (Hall c Hcin).
      unfold key_le in Hall. lia. }
    cbn [py_lt Z_Comparable bind]. rewrite Hlt.
    rewrite IH; [reflexivity|exact Hs'|exact Hin'|].
    intros c Hc. apply Hraise. right. exact Hc.
Qed.

Lemma sorted_tuple_raises : forall l : list (Z * B),
  (forall p q, In p l -> In q l -> py_eq (snd p) (snd q) = Raise e) ->
  ~ NoDup (map fst l) ->
  sorted tuple_lt l = Raise e.
Proof.
  induction l as [|a l IH]; intros Hraise Hdup.
  - exfalso. apply Hdup. constructor.
  - cbn [sorted].
    assert (Hraise' : forall p q, In p l -> In q l -> py_eq (snd p) (snd q) = Raise e).
    { intros p q Hp Hq. apply Hraise; right; assumption. }
    destruct (ListDec.NoDup_dec Z.eq_dec (map fst l)) as [Hnd|Hnd].
    + destruct (in_dec Z.eq_dec (fst a) (map fst l)) as [Hin|Hnin].
      * rewrite (sorted_tuple_as_key l Hnd).
        destruct (sorted_key_ordered l) as (r & Hr & Hp & Hs).
        rewrite Hr. cbn [bind]. apply insert_tuple_raises.
        -- exact Hs.
        -- eapply Permutation_in; [apply Permutation_map, Permutation_sym; exact Hp|exact Hin].
        -- intros b Hb. apply Hraise; [right|left; reflexivity].
           eapply Permutation_in; [exact Hp|exact Hb].
      * exfalso. apply Hdup. simpl. constructor; assumption.
    + rewrite (IH Hraise' Hnd). reflexivity.
Qed.

End UncomparableObservables.

Section EstimatorMore.

Import Estimator.

(** X15.  Take observables whose [==] cannot be truth-tested (arrays of two
    or more elements, told as distinct objects).  With caches of one length,
    the array of a report is built when the cached independent values are
    pairwise distinct; when one is repeated, the sort compares two
    observables and both reports raise that error before the model is
    called, leaving the agent untouched. *)
Theorem repeated_x_with_uncomparable_observables
  (Y M T W C P D K : Type) (cy : Comparable Y)
  (dec : Decomposer M Y W C) (clu : Clusterer M Y P D K)
  (s : agent Z Y M T) (e : exn) :
  length (independent_cache s) = length (observable_cache s) ->
  (forall y1 y2, In y1 (observable_cache s) -> In y2 (observable_cache s) ->
     py_eq y1 y2 = Raise e) ->
  (NoDup (independent_cache s) -> exists arr, sorted_observables s = Ok arr) /\
  (~ NoDup (independent_cache s) ->
     sorted_observables s = Raise e /\
     decomposition_report s = (Raise e, s) /\
     cluster_report s = (Raise e, s)).
Proof.
  intros Hlen Hraise. split.
  - intros Hnd.
    destruct (stable_sort_by_x_ordered (independent_cache s) (observable_cache s))
      as (ps & Hk & _).
    exists (map snd ps). unfold sorted_observables.
    rewrite (sorted_pairs_distinct_x (observable_cache s) Hnd), Hk. reflexivity.
  - intros Hdup.
    assert (Hs : sorted_pairs (independent_cache s) (observable_cache s) = Raise e).
    { unfold sorted_pairs. apply sorted_tuple_raises.
      - intros p q Hp Hq. destruct p as [x1 y1], q as [x2 y2].
        apply Hraise; eapply in_combine_r; eassumption.
      - rewrite map_fst_combine_same_length by exact Hlen. exact Hdup. }
    unfold decomposition_report, cluster_report, sorted_observables.
    rewrite Hs. repeat split.
Qed.

End EstimatorMore.

(** ** Further instances on the example agents *)

Section MoreInstances.

Import Examples.

(** X1 on the two-point agent under [(5, 10)]. *)
Lemma ask_success_accounting_witness :
  length (points [12; 7]%Z) = 2 /\
  Sequential.proposal
    {| Sequential.proposal := points [12; 7]%Z;
       Sequential.doc_ask_count := [2] |} = points [12; 7]%Z /\
  Sequential.doc_ask_count
    {| Sequential.proposal := points [12; 7]%Z;
       Sequential.doc_ask_count := [2] |} = [Sequential.ask_count bounded + 2] /\
  Sequential.ask_count (snd (Sequential.ask 2 bounded)) =
    Sequential.ask_count bounded + 2 /\
  same_data bounded (snd (Sequential.ask 2 bounded)).
Proof.
  exact (@ask_success_accounting Z Z bounded (snd (Sequential.ask 2 bounded)) 2
           _ _ eq_refl).
Defined.

(** X2 on the agent whose only point is an array. *)
Lemma ask_failure_closes_generator_witness :
  Sequential.position_generator (snd (Sequential.ask 1 array_point)) =
    Sequential.Closed /\
  Sequential.ask_count array_point <
    Sequential.ask_count (snd (Sequential.ask 1 array_point)) <=
    Sequential.ask_count array_point + 1 /\
  same_data array_point (snd (Sequential.ask 1 array_point)).
Proof.
  exact (@ask_failure_closes_generator Z Z array_point
           (snd (Sequential.ask 1 array_point)) 1 ValueError eq_refl).
Defined.

(** X3 on the same agent after its failed [ask]. *)
Lemma ask_on_finished_generator_witness :
  exists s',
    Sequential.ask 1 (snd (Sequential.ask 1 array_point)) =
      (Raise StopIteration, s') /\
    Sequential.ask_count s' = 2 /\
    Sequential.position_generator s' = Sequential.Closed /\
    Sequential.log s' = [] /\
    same_data (snd (Sequential.ask 1 array_point)) s'.
Proof.
  exact (@ask_on_finished_generator Z Z (snd (Sequential.ask 1 array_point)) 1
           eq_refl (proj1 (Nat.ltb_lt 0 1) eq_refl)).
Defined.

(** X6 under [(10, 5)] over 1..12: six proposals are 1..5 and 10, and the
    numbers 6..9 are logged. *)
Lemma bounded_ask_filters_witness :
  exists s' visited rest,
    [1; 2; 3; 4; 5; 6; 7; 8; 9; 10; 11; 12]%Z = visited ++ rest /\
    filter (in_bounds 10 5) visited = [1; 2; 3; 4; 5; 10]%Z /\
    Sequential.ask 6 inverted =
      (Ok ({| Sequential.proposal := map Scalar (filter (in_bounds 10 5) visited);
              Sequential.doc_ask_count := [6] |},
           map Scalar (filter (in_bounds 10 5) visited)), s') /\
    Sequential.log s' =
      [] ++ map (out_of_bounds 10 5)
                (filter (fun z => negb (in_bounds 10 5 z)) visited) /\
    Sequential.remaining s' = map Scalar rest.
Proof.
  exact (@bounded_ask_filters Z Z 10 5 inverted
           [1; 2; 3; 4; 5; 6; 7; 8; 9; 10; 11; 12]%Z 6 eq_refl eq_refl
           (proj1 (Nat.leb_le 6 8) eq_refl)).
Defined.

(** X7 on the same agent: eight numbers pass, so [ask 9] fails. *)
Lemma bounded_ask_exhausts_witness :
  exists s',
    Sequential.ask 9 inverted = (Raise StopIteration, s') /\
    Sequential.ask_count s' = 9 /\
    Sequential.log s' = map (out_of_bounds 10 5) [6; 7; 8; 9]%Z /\
    Sequential.position_generator s' = Sequential.Closed.
Proof.
  exact (@bounded_ask_exhausts Z Z 10 5 inverted
           [1; 2; 3; 4; 5; 6; 7; 8; 9; 10; 11; 12]%Z 9 eq_refl eq_refl
           (proj1 (Nat.ltb_lt 8 9) eq_refl)).
Defined.


Lemma ten_points_not_empty :
  points [0; 1; 2; 3; 4; 5; 6; 7; 8; 9]%Z <> [].
Proof. discriminate. Qed.

(** X11 on ten points: three draws, then thirteen asked of a fresh agent. *)
Lemma fresh_unbounded_progress_witness :
  Sequential.report (snd (Sequential.ask 3 ten)) =
    Ok {| Sequential.percent_completion := [Qmake 3 10] |} /\
  Sequential.report (snd (Sequential.ask 13 ten)) =
    Ok {| Sequential.percent_completion := [Qmake 11 10] |}.
Proof.
  split.
  - exact (proj2 (proj1 (@fresh_unbounded_progress Z Z
                           (points [0; 1; 2; 3; 4; 5; 6; 7; 8; 9]%Z) 3
                           ten_points_not_empty)
                        (proj1 (Nat.leb_le 3 10) eq_refl))).
  - exact (proj1 (proj2 (proj2 (proj2 (@fresh_unbounded_progress Z Z
                           (points [0; 1; 2; 3; 4; 5; 6; 7; 8; 9]%Z) 13
                           ten_points_not_empty)
                        (proj1 (Nat.ltb_lt 10 13) eq_refl))))).
Defined.

(** X13 on three observations told at 3, 1, 2. *)
Lemma reports_fit_the_told_observables_witness :
  Permutation [10; 20; 30]%Z [30; 10; 20]%Z /\
  length [10; 20; 30]%Z = 3 /\
  (forall doc s',
     Estimator.decomposition_report (dec := recorder) distinct = (Ok doc, s') ->
     Estimator.d_cache_len doc = [3]) /\
  (forall doc s',
     Estimator.cluster_report (clu := cluster_recorder) distinct = (Ok doc, s') ->
     Estimator.c_cache_len doc = [3]).
Proof.
  exact (@reports_fit_the_told_observables Z Z (list (list Z)) (Z * Z)
           nat nat (list nat) (list nat) nat _ _ recorder cluster_recorder
           [(3, 30); (1, 10); (2, 20)]%Z [] [(0, 0)%Z] [10; 20; 30]%Z eq_refl).
Defined.

Lemma tied_arrays_uncomparable (y1 y2 : value) :
  In y1 (Estimator.observable_cache tied_arrays) ->
  In y2 (Estimator.observable_cache tied_arrays) ->
  py_eq y1 y2 = Raise ValueError.
Proof.
  simpl. intros [<-|[<-|[]]] [<-|[<-|[]]]; reflexivity.
Qed.

Lemma tied_arrays_repeat : ~ NoDup (Estimator.independent_cache tied_arrays).
Proof.
  simpl. intros H. inversion H as [|? ? Hn _]. apply Hn. left. reflexivity.
Qed.

(** X15 on two arrays told at the same independent value. *)
Lemma repeated_x_with_uncomparable_observables_witness :
  Estimator.sorted_observables tied_arrays = Raise ValueError /\
  Estimator.decomposition_report (dec := array_recorder) tied_arrays =
    (Raise ValueError, tied_arrays) /\
  Estimator.cluster_report (clu := array_cluster_recorder) tied_arrays =
    (Raise ValueError, tied_arrays).
Proof.
  exact (proj2 (@repeated_x_with_uncomparable_observables
                  value (list (list value)) (Z * Z) nat nat (list nat) (list nat) nat
                  _ array_recorder array_cluster_recorder tied_arrays ValueError
                  eq_refl tied_arrays_uncomparable)
               tied_arrays_repeat).
Defined.

End MoreInstances.

(** * One pass over the sequence *)

Section SinglePass.

Import Sequential.

Variables X Y : Type.

Implicit Types s : agent X Y.

Lemma visit_emit bs (p v : value) : visit bs p = Emit v -> v = p.
Proof.
  unfold visit, np_array. destruct bs as [[low high]|]; [|intros [= <-]; reflexivity].
  destruct (condition p low high) as [cond|e]; [|discriminate].
  destruct (truth cond) as [[|]|[]]; try discriminate.
  - intros [= <-]. reflexivity.
  - destruct (np_all cond); [|discriminate]. intros [= <-]. reflexivity.
Qed.

Lemma visit_skip bs (p : value) (w : warning) : visit bs p = Skip w -> skipped w = p.
Proof.
  unfold visit, np_array. destruct bs as [[low high]|]; [|discriminate].
  destruct (condition p low high) as [cond|e]; [|discriminate].
  destruct (truth cond) as [[|]|[]]; try discriminate.
  - intros [= <-]. reflexivity.
  - destruct (np_all cond); [discriminate|]. intros [= <-]. reflexivity.
Qed.

Lemma advance_visited bs : forall (rest : list value) ws out g,
  advance bs rest = (ws, out, g) ->
  exists visited,
    rest = visited ++ match g with Suspended r => r | _ => [] end /\
    g <> Created /\
    Forall (fun w => In (skipped w) visited) ws /\
    (forall p, out = Ok p -> In p visited /\ length visited = S (length ws)).
Proof.
  induction rest as [|p rest IH]; intros ws out g; cbn [advance].
  - intros [= <- <- <-]. exists []. repeat split; try discriminate. constructor.
  - destruct (visit bs p) as [v|w|e] eqn:Hv.
    + intros [= <- <- <-]. apply visit_emit in Hv. subst v.
      exists [p]. repeat split; try discriminate.
      * constructor.
      * injection H as <-. left. reflexivity.
    + destruct (advance bs rest) as [[ws' out'] g'] eqn:Ha.
      intros [= <- <- <-]. apply visit_skip in Hv.
      destruct (IH ws' out' g' eq_refl) as (visited & Hr & Hg & Hw & Hp).
      exists (p :: visited). split; [rewrite Hr at 1; reflexivity|].
      split; [exact Hg|]. split.
      * constructor; [left; exact (eq_sym Hv)|].
        eapply Forall_impl; [|exact Hw]. intros a Ha'. right. exact Ha'.
      * intros q Hq. destruct (Hp q Hq) as [Hin Hlen].
        split; [right; exact Hin|simpl; rewrite Hlen; reflexivity].
    + intros [= <- <- <-]. exists (p :: rest). rewrite app_nil_r.
      repeat split; try discriminate. constructor.
Qed.

Lemma next_visited s :
  exists visited ws,
    remaining s = visited ++ remaining (snd (next (bump s))) /\
    log (snd (next (bump s))) = log s ++ ws /\
    Forall (fun w => In (skipped w) visited) ws /\
    (forall p, fst (next (bump s)) = Ok p ->
       In p visited /\ length visited = S (length ws)).
Proof.
  unfold next. rewrite remaining_bump. cbn [bump relative_bounds log].
  destruct (advance (relative_bounds s) (remaining s)) as [[ws out] g] eqn:Ha.
  destruct (advance_visited _ _ Ha) as (visited & Hr & Hg & Hw & Hp).
  exists visited, ws. cbn [fst snd log]. split.
  - rewrite Hr. unfold remaining. cbn [position_generator].
    destruct g; [contradiction|reflexivity|reflexivity].
  - split; [reflexivity|]. split; [exact Hw|exact Hp].
Qed.

Lemma ask_loop_visited (k : nat) : forall (acc : list value) s,
  exists visited ws,
    remaining s = visited ++ remaining (snd (ask_loop k acc s)) /\
    log (snd (ask_loop k acc s)) = log s ++ ws /\
    Forall (fun w => In (skipped w) visited) ws /\
    (forall props, fst (ask_loop k acc s) = Ok props ->
       exists drawn,
         props = acc ++ drawn /\
         Forall (fun p => In p visited) drawn /\
         length drawn = k /\
         length visited = k + length ws).
Proof.
  induction k as [|k IH]; intros acc s.
  - exists [], []. cbn [ask_loop fst snd app]. rewrite app_nil_r.
    repeat split; try constructor.
    intros props [= <-]. exists []. rewrite app_nil_r. repeat split. constructor.
  - cbn [ask_loop].
    destruct (next_visited s) as (v1 & w1 & Hr1 & Hl1 & Hw1 & Hp1).
    destruct (next (bump s)) as [[p|e] s1]; cbn [fst snd] in *.
    + destruct (IH (acc ++ [p]) s1) as (v2 & w2 & Hr2 & Hl2 & Hw2 & Hp2).
      destruct (Hp1 p eq_refl) as [Hin Hlen].
      exists (v1 ++ v2), (w1 ++ w2).
      split; [rewrite Hr1, Hr2 at 1; rewrite app_assoc; reflexivity|].
      split; [rewrite Hl2, Hl1, app_assoc; reflexivity|].
      split.
      * apply Forall_app. split.
        -- eapply Forall_impl; [|exact Hw1]. intros a Ha. apply in_or_app. left. exact Ha.
        -- eapply Forall_impl; [|exact Hw2]. intros a Ha. apply in_or_app. right. exact Ha.
      * intros props Hprops. destruct (Hp2 props Hprops) as (drawn & Hd & Hall & Hk & Hv).
        exists (p :: drawn). split; [rewrite Hd, <- app_assoc; reflexivity|].
        split.
        -- constructor; [apply in_or_app; left; exact Hin|].
           eapply Forall_impl; [|exact Hall]. intros a Ha. apply in_or_app. right. exact Ha.
        -- rewrite !length_app. simpl. split; lia.
    + exists v1, w1. repeat split; try assumption. discriminate.
Qed.

(** X17.  [ask] makes one pass: it consumes a prefix of the points not yet
    visited and leaves the rest for later calls; what it logs are warnings
    for points of that prefix; when it succeeds, every proposal is a point of
    the prefix and each point of the prefix was either proposed or logged. *)
Theorem ask_consumes_a_prefix s (k : nat) :
  exists visited ws,
    remaining s = visited ++ remaining (snd (ask k s)) /\
    log (snd (ask k s)) = log s ++ ws /\
    Forall (fun w => In (skipped w) visited) ws /\
    (forall doc props, fst (ask k s) = Ok (doc, props) ->
       Forall (fun p => In p visited) props /\
       length visited = k + length ws).
Proof.
  destruct (ask_loop_visited k [] s) as (visited & ws & Hr & Hl & Hw & Hp).
  exists visited, ws. unfold ask.
  destruct (ask_loop k [] s) as [[props|e] s1]; cbn [fst snd] in *.
  - repeat split; try assumption.
    + injection H as _ <-. destruct (Hp props eq_refl) as (drawn & Hd & Hall & _).
      simpl in Hd. subst drawn. exact Hall.
    + destruct (Hp props eq_refl) as (drawn & _ & _ & _ & Hv). exact Hv.
  - repeat split; try assumption; discriminate.
Qed.

End SinglePass.
